(** * oponOK backend: a shallow embedding of the request handlers

    The handlers of [app/main.py] are embedded as functions over an
    explicit database state.  A table is the list of its rows in the
    store's scan order; [db.get] is a primary-key lookup; a handler is a
    computation in a state-and-exception monad whose exception is
    FastAPI's [HTTPException]. *)

From Stdlib Require Import List ZArith String Bool Lia.
From Stdlib Require Import Sorted Permutation.
Import ListNotations.
Open Scope string_scope.
Open Scope Z_scope.

(** ** Data model ([app/models.py]) *)

Inductive TyreCondition := good | bad.

Inductive UserRole := user | admin.

Definition TyreCondition_eqb (a b : TyreCondition) : bool :=
  match a, b with
  | good, good | bad, bad => true
  | _, _ => false
  end.

Definition UserRole_eqb (a b : UserRole) : bool :=
  match a, b with
  | user, user | admin, admin => true
  | _, _ => false
  end.

Record User := mkUser {
  u_id : Z;
  u_name : string;
  u_email : string;
  u_phone : string;
  u_password_hash : string;
  u_role : UserRole
}.

Record Car := mkCar {
  c_id : Z;
  c_user_id : Z;
  c_make : string;
  c_model : string;
  c_year : Z;
  c_plate : string
}.

(** [i_date] is the inspection's timestamp on a linear time axis. *)
Record Inspection := mkInspection {
  i_id : Z;
  i_car_id : Z;
  i_date : Z;
  i_frontLeft : TyreCondition;
  i_frontRight : TyreCondition;
  i_rearLeft : TyreCondition;
  i_rearRight : TyreCondition;
  i_notes : option string
}.

(** The persisted state: the three tables. *)
Record DB := mkDB {
  users : list User;
  cars : list Car;
  inspections : list Inspection
}.

(** ** Request and response schemas ([app/schemas.py]) *)

(** [uc_role] is [None] when the request body omits the field. *)
Record UserCreate := mkUserCreate {
  uc_name : string;
  uc_email : string;
  uc_phone : string;
  uc_role : option UserRole;
  uc_password : string
}.

(** [role: UserRole = UserRole.user] in [UserBase]. *)
Definition UserCreate_role (body : UserCreate) : UserRole :=
  match uc_role body with
  | Some r => r
  | None => user
  end.

Record CarCreate := mkCarCreate {
  cc_make : string;
  cc_model : string;
  cc_year : Z;
  cc_plate : string
}.

Record InspectionCreate := mkInspectionCreate {
  ic_date : Z;
  ic_frontLeft : TyreCondition;
  ic_frontRight : TyreCondition;
  ic_rearLeft : TyreCondition;
  ic_rearRight : TyreCondition;
  ic_notes : option string
}.

(** Values carried by [model_dump()] and by serialised responses. *)
Inductive value :=
| VInt (n : Z)
| VStr (s : string)
| VDateTime (t : Z)
| VTyre (t : TyreCondition)
| VRole (r : UserRole)
| VNone.

Definition fields := list (string * value).

Fixpoint field_get (k : string) (o : fields) : option value :=
  match o with
  | [] => None
  | (k', v) :: o' => if String.eqb k k' then Some v else field_get k o'
  end.

Definition CarCreate_model_dump (car : CarCreate) : fields :=
  [ ("make", VStr (cc_make car)); ("model", VStr (cc_model car));
    ("year", VInt (cc_year car)); ("plate", VStr (cc_plate car)) ].

Definition opt_str_value (o : option string) : value :=
  match o with
  | Some s => VStr s
  | None => VNone
  end.

Definition InspectionCreate_model_dump (i : InspectionCreate) : fields :=
  [ ("date", VDateTime (ic_date i));
    ("frontLeft", VTyre (ic_frontLeft i));
    ("frontRight", VTyre (ic_frontRight i));
    ("rearLeft", VTyre (ic_rearLeft i));
    ("rearRight", VTyre (ic_rearRight i));
    ("notes", opt_str_value (ic_notes i)) ].

(** [response_model=schemas.UserOut]: the fields of [UserBase] and [id],
    read from the attributes of the returned object. *)
Definition UserOut (u : User) : fields :=
  [ ("name", VStr (u_name u)); ("email", VStr (u_email u));
    ("phone", VStr (u_phone u)); ("role", VRole (u_role u));
    ("id", VInt (u_id u)) ].

(** ** Attribute assignment on mapped objects

    [setattr(obj, field, value)] on a column attribute overwrites the
    column.  Any other name is a plain Python attribute that is not
    persisted; a value of the wrong type for the column does not come
    out of a validated schema and leaves the row as it is. *)

Definition setattr_car (car : Car) (field : string) (v : value) : Car :=
  match v with
  | VInt n =>
      if String.eqb field "id" then
        mkCar n (c_user_id car) (c_make car) (c_model car) (c_year car) (c_plate car)
      else if String.eqb field "user_id" then
        mkCar (c_id car) n (c_make car) (c_model car) (c_year car) (c_plate car)
      else if String.eqb field "year" then
        mkCar (c_id car) (c_user_id car) (c_make car) (c_model car) n (c_plate car)
      else car
  | VStr s =>
      if String.eqb field "make" then
        mkCar (c_id car) (c_user_id car) s (c_model car) (c_year car) (c_plate car)
      else if String.eqb field "model" then
        mkCar (c_id car) (c_user_id car) (c_make car) s (c_year car) (c_plate car)
      else if String.eqb field "plate" then
        mkCar (c_id car) (c_user_id car) (c_make car) (c_model car) (c_year car) s
      else car
  | _ => car
  end.

Definition setattr_inspection (i : Inspection) (field : string) (v : value)
  : Inspection :=
  match v with
  | VInt n =>
      if String.eqb field "id" then
        mkInspection n (i_car_id i) (i_date i) (i_frontLeft i) (i_frontRight i)
                     (i_rearLeft i) (i_rearRight i) (i_notes i)
      else if String.eqb field "car_id" then
        mkInspection (i_id i) n (i_date i) (i_frontLeft i) (i_frontRight i)
                     (i_rearLeft i) (i_rearRight i) (i_notes i)
      else i
  | VDateTime t =>
      if String.eqb field "date" then
        mkInspection (i_id i) (i_car_id i) t (i_frontLeft i) (i_frontRight i)
                     (i_rearLeft i) (i_rearRight i) (i_notes i)
      else i
  | VTyre t =>
      if String.eqb field "frontLeft" then
        mkInspection (i_id i) (i_car_id i) (i_date i) t (i_frontRight i)
                     (i_rearLeft i) (i_rearRight i) (i_notes i)
      else if String.eqb field "frontRight" then
        mkInspection (i_id i) (i_car_id i) (i_date i) (i_frontLeft i) t
                     (i_rearLeft i) (i_rearRight i) (i_notes i)
      else if String.eqb field "rearLeft" then
        mkInspection (i_id i) (i_car_id i) (i_date i) (i_frontLeft i)
                     (i_frontRight i) t (i_rearRight i) (i_notes i)
      else if String.eqb field "rearRight" then
        mkInspection (i_id i) (i_car_id i) (i_date i) (i_frontLeft i)
                     (i_frontRight i) (i_rearLeft i) t (i_notes i)
      else i
  | VStr s =>
      if String.eqb field "notes" then
        mkInspection (i_id i) (i_car_id i) (i_date i) (i_frontLeft i)
                     (i_frontRight i) (i_rearLeft i) (i_rearRight i) (Some s)
      else i
  | VNone =>
      if String.eqb field "notes" then
        mkInspection (i_id i) (i_car_id i) (i_date i) (i_frontLeft i)
                     (i_frontRight i) (i_rearLeft i) (i_rearRight i) None
      else i
  | VRole _ => i
  end.

(** [for field, value in body.model_dump().items(): setattr(obj, field, value)] *)
Definition setattrs {A} (set : A -> string -> value -> A) (obj : A) (o : fields)
  : A :=
  fold_left (fun acc kv => set acc (fst kv) (snd kv)) o obj.

(** ** Persistence *)

(** [db.get(Model, pk)]: primary-key lookup, for a key that the driver
    can bind as a query parameter; what happens to a key it cannot bind
    is in [serve] below. *)
Definition get_Car (db : DB) (car_id : Z) : option Car :=
  find (fun c => c_id c =? car_id) (cars db).

Definition get_Inspection (db : DB) (inspection_id : Z) : option Inspection :=
  find (fun i => i_id i =? inspection_id) (inspections db).

(** The integer primary key handed out on insert: one more than the
    largest key in the table, [1] in an empty table. *)
Definition next_id (ids : list Z) : Z :=
  fold_right Z.max 0 ids + 1.

(** [.order_by(Inspection.date.desc())]: a stable sort of the scanned rows,
    latest date first.  Rows with equal dates keep their scan order: the
    source gives no secondary key. *)
Fixpoint insert_date_desc (i : Inspection) (l : list Inspection)
  : list Inspection :=
  match l with
  | [] => [i]
  | j :: l' =>
      if i_date j <=? i_date i then i :: j :: l'
      else j :: insert_date_desc i l'
  end.

Definition order_by_date_desc (l : list Inspection) : list Inspection :=
  fold_right insert_date_desc [] l.

(** [.first()] *)
Definition first {A} (l : list A) : option A := hd_error l.

(** ** Handlers as computations

    A handler either returns a value together with the committed state
    or raises an [HTTPException]; no handler writes before it raises, so
    a raise leaves the state as it was. *)

Record HTTPException := mkHTTPException {
  status_code : Z;
  detail : string
}.

Definition M (A : Type) : Type := DB -> DB * (HTTPException + A).

Definition ret {A} (a : A) : M A := fun db => (db, inr a).

Definition raise {A} (e : HTTPException) : M A := fun db => (db, inl e).

Definition bind {A B} (m : M A) (k : A -> M B) : M B :=
  fun db =>
    match m db with
    | (db', inr a) => k a db'
    | (db', inl e) => (db', inl e)
    end.

Definition query {A} (q : DB -> A) : M A := fun db => (db, inr (q db)).

Definition commit (f : DB -> DB) : M unit := fun db => (f db, inr tt).

Notation "x <- m ;; k" := (bind m (fun x => k))
  (at level 61, m at next level, right associativity).
Notation "m ;;; k" := (bind m (fun _ => k))
  (at level 61, right associativity).

(** [if not obj: raise HTTPException(code, msg)] *)
Definition or_raise {A} (o : option A) (code : Z) (msg : string) : M A :=
  match o with
  | Some a => ret a
  | None => raise (mkHTTPException code msg)
  end.

(** [if current_user.role != UserRole.admin and car.user_id != current_user.id:
        raise HTTPException(403, "Not your car")] *)
Definition check_owner (current_user : User) (car : Car) : M unit :=
  if negb (UserRole_eqb (u_role current_user) admin)
     && negb (c_user_id car =? u_id current_user)
  then raise (mkHTTPException 403 "Not your car")
  else ret tt.

(** ** Row-level writes performed by [db.commit()] *)

Definition insert_user (u : User) (db : DB) : DB :=
  mkDB (users db ++ [u]) (cars db) (inspections db).

Definition insert_car (c : Car) (db : DB) : DB :=
  mkDB (users db) (cars db ++ [c]) (inspections db).

Definition insert_inspection (i : Inspection) (db : DB) : DB :=
  mkDB (users db) (cars db) (inspections db ++ [i]).

(** The row whose primary key is [pk] takes the attributes of [c]. *)
Definition update_car_row (pk : Z) (c : Car) (db : DB) : DB :=
  mkDB (users db)
       (map (fun r => if c_id r =? pk then c else r) (cars db))
       (inspections db).

Definition update_inspection_row (pk : Z) (i : Inspection) (db : DB) : DB :=
  mkDB (users db) (cars db)
       (map (fun r => if i_id r =? pk then i else r) (inspections db)).

(** [db.delete(car)]: the relationship [Car.inspections] carries
    [cascade="all, delete-orphan"], so the car's inspections go with it. *)
Definition delete_car_row (pk : Z) (db : DB) : DB :=
  mkDB (users db)
       (filter (fun r => negb (c_id r =? pk)) (cars db))
       (filter (fun r => negb (i_car_id r =? pk)) (inspections db)).

Definition delete_inspection_row (pk : Z) (db : DB) : DB :=
  mkDB (users db) (cars db)
       (filter (fun r => negb (i_id r =? pk)) (inspections db)).

(** ** [POST /register] *)

Section Register.

(** [hash_password] lives in [app/auth.py]; the handler only calls it. *)
Variable hash_password : string -> string.

Definition register (body : UserCreate) : M User :=
  existing <- query (fun db =>
    first (filter (fun u => String.eqb (u_email u) (uc_email body)) (users db))) ;;
  match existing with
  | Some _ => raise (mkHTTPException 400 "Email already in use")
  | None =>
      db_user <- query (fun db =>
        mkUser (next_id (map u_id (users db)))
               (uc_name body) (uc_email body) (uc_phone body)
               (hash_password (uc_password body))
               (UserCreate_role body)) ;;
      commit (insert_user db_user) ;;;
      ret db_user
  end.

(** The row that a registration with a fresh email stores. *)
Definition created_user (db : DB) (body : UserCreate) : User :=
  mkUser (next_id (map u_id (users db)))
         (uc_name body) (uc_email body) (uc_phone body)
         (hash_password (uc_password body))
         (UserCreate_role body).

End Register.

(** ** [GET /me] *)

Record MeResponse := mkMeResponse {
  me_id : Z;
  me_name : string;
  me_email : string;
  me_phone : string;
  me_role : UserRole;
  cars_assigned : Z;
  inspections_total : Z;
  failed_cars : Z
}.

(** [len(...)] and [.count()] *)
Definition len {A} (l : list A) : Z := Z.of_nat (List.length l).

(** The query of the loop body: the car's inspections, latest first,
    first row. *)
Definition last_inspection (db : DB) (car : Car) : option Inspection :=
  first (order_by_date_desc
           (filter (fun i => i_car_id i =? c_id car) (inspections db))).

Definition any_bad (last : Inspection) : bool :=
  TyreCondition_eqb (i_frontLeft last) bad
  || TyreCondition_eqb (i_frontRight last) bad
  || TyreCondition_eqb (i_rearLeft last) bad
  || TyreCondition_eqb (i_rearRight last) bad.

(** One iteration of [for car in cars]. *)
Definition failed_cars_step (db : DB) (acc : Z) (car : Car) : Z :=
  match last_inspection db car with
  | None => acc
  | Some last => if any_bad last then acc + 1 else acc
  end.

Definition me (current_user : User) : M MeResponse :=
  cars_ <- query (fun db =>
    filter (fun c => c_user_id c =? u_id current_user) (cars db)) ;;
  let cars_assigned_ := len cars_ in
  inspections_total_ <-
    match cars_ with
    | _ :: _ =>
        let car_ids := map c_id cars_ in
        query (fun db =>
          len (filter (fun i => existsb (Z.eqb (i_car_id i)) car_ids)
                      (inspections db)))
    | [] => ret 0
    end ;;
  failed_cars_ <- query (fun db => fold_left (failed_cars_step db) cars_ 0) ;;
  ret (mkMeResponse (u_id current_user) (u_name current_user)
                    (u_email current_user) (u_phone current_user)
                    (u_role current_user)
                    cars_assigned_ inspections_total_ failed_cars_).

(** ** Vehicles *)

Definition list_cars (current_user : User) : M (list Car) :=
  if UserRole_eqb (u_role current_user) admin then
    query (fun db => cars db)
  else
    query (fun db => filter (fun c => c_user_id c =? u_id current_user) (cars db)).

Definition create_car (car : CarCreate) (current_user : User) : M Car :=
  db_car <- query (fun db =>
    mkCar (next_id (map c_id (cars db))) (u_id current_user)
          (cc_make car) (cc_model car) (cc_year car) (cc_plate car)) ;;
  commit (insert_car db_car) ;;;
  ret db_car.

Definition get_car (car_id : Z) (current_user : User) : M Car :=
  found <- query (fun db => get_Car db car_id) ;;
  car <- or_raise found 404 "Car not found" ;;
  check_owner current_user car ;;;
  ret car.

Definition update_car (car_id : Z) (car_in : CarCreate) (current_user : User)
  : M Car :=
  found <- query (fun db => get_Car db car_id) ;;
  car <- or_raise found 404 "Car not found" ;;
  check_owner current_user car ;;;
  let car' := setattrs setattr_car car (CarCreate_model_dump car_in) in
  commit (update_car_row (c_id car) car') ;;;
  ret car'.

Definition delete_car (car_id : Z) (current_user : User) : M string :=
  found <- query (fun db => get_Car db car_id) ;;
  car <- or_raise found 404 "Car not found" ;;
  check_owner current_user car ;;;
  commit (delete_car_row (c_id car)) ;;;
  ret "deleted".

(** ** Inspections *)

Definition list_inspections (car_id : Z) (current_user : User)
  : M (list Inspection) :=
  found <- query (fun db => get_Car db car_id) ;;
  car <- or_raise found 404 "Car not found" ;;
  check_owner current_user car ;;;
  query (fun db =>
    order_by_date_desc (filter (fun i => i_car_id i =? car_id) (inspections db))).

Definition create_inspection (car_id : Z) (inspection : InspectionCreate)
    (current_user : User) : M Inspection :=
  found <- query (fun db => get_Car db car_id) ;;
  car <- or_raise found 404 "Car not found" ;;
  check_owner current_user car ;;;
  db_insp <- query (fun db =>
    mkInspection (next_id (map i_id (inspections db))) car_id
                 (ic_date inspection)
                 (ic_frontLeft inspection) (ic_frontRight inspection)
                 (ic_rearLeft inspection) (ic_rearRight inspection)
                 (ic_notes inspection)) ;;
  commit (insert_inspection db_insp) ;;;
  ret db_insp.

Definition update_inspection (inspection_id : Z)
    (inspection_in : InspectionCreate) (current_user : User) : M Inspection :=
  found <- query (fun db => get_Inspection db inspection_id) ;;
  insp <- or_raise found 404 "Inspection not found" ;;
  parent <- query (fun db => get_Car db (i_car_id insp)) ;;
  car <- or_raise parent 404 "Car not found" ;;
  check_owner current_user car ;;;
  let insp' :=
    setattrs setattr_inspection insp (InspectionCreate_model_dump inspection_in) in
  commit (update_inspection_row (i_id insp) insp') ;;;
  ret insp'.

Definition delete_inspection (inspection_id : Z) (current_user : User)
  : M string :=
  found <- query (fun db => get_Inspection db inspection_id) ;;
  insp <- or_raise found 404 "Inspection not found" ;;
  parent <- query (fun db => get_Car db (i_car_id insp)) ;;
  car <- or_raise parent 404 "Car not found" ;;
  check_owner current_user car ;;;
  commit (delete_inspection_row (i_id insp)) ;;;
  ret "deleted".

(** ** Routing: the operations that target one resource *)

Inductive Request :=
| GET_car (car_id : Z)
| PUT_car (car_id : Z) (car_in : CarCreate)
| DELETE_car (car_id : Z)
| GET_inspections (car_id : Z)
| POST_inspection (car_id : Z) (inspection : InspectionCreate)
| PUT_inspection (inspection_id : Z) (inspection_in : InspectionCreate)
| DELETE_inspection (inspection_id : Z).

Inductive Response :=
| CarOut (c : Car)
| InspectionOut (i : Inspection)
| InspectionsOut (l : list Inspection)
| StatusOut (s : string).

Definition fmap {A B} (f : A -> B) (m : M A) : M B :=
  a <- m ;; ret (f a).

Definition handle (current_user : User) (req : Request) : M Response :=
  match req with
  | GET_car car_id => fmap CarOut (get_car car_id current_user)
  | PUT_car car_id car_in => fmap CarOut (update_car car_id car_in current_user)
  | DELETE_car car_id => fmap StatusOut (delete_car car_id current_user)
  | GET_inspections car_id =>
      fmap InspectionsOut (list_inspections car_id current_user)
  | POST_inspection car_id inspection =>
      fmap InspectionOut (create_inspection car_id inspection current_user)
  | PUT_inspection inspection_id inspection_in =>
      fmap InspectionOut
           (update_inspection inspection_id inspection_in current_user)
  | DELETE_inspection inspection_id =>
      fmap StatusOut (delete_inspection inspection_id current_user)
  end.

(** The resource a request names in its path. *)
Inductive Target :=
| Vehicle (car_id : Z)
| AnInspection (inspection_id : Z).

Definition target (req : Request) : Target :=
  match req with
  | GET_car k | PUT_car k _ | DELETE_car k
  | GET_inspections k | POST_inspection k _ => Vehicle k
  | PUT_inspection k _ | DELETE_inspection k => AnInspection k
  end.

Definition resource_exists (db : DB) (t : Target) : bool :=
  match t with
  | Vehicle k =>
      match get_Car db k with Some _ => true | None => false end
  | AnInspection k =>
      match get_Inspection db k with Some _ => true | None => false end
  end.

(** The owning user of a resource; an inspection's owner is the owner of
    its parent vehicle. *)
Definition resource_owner (db : DB) (t : Target) : option Z :=
  match t with
  | Vehicle k => option_map c_user_id (get_Car db k)
  | AnInspection k =>
      match get_Inspection db k with
      | Some i => option_map c_user_id (get_Car db (i_car_id i))
      | None => None
      end
  end.

Definition succeeds {A} (r : DB * (HTTPException + A)) : bool :=
  match snd r with
  | inr _ => true
  | inl _ => false
  end.

(** ** The specification's vocabulary *)

(** The failure kinds of the specification and the status each one
    travels under. *)
Inductive Failure :=
| DuplicateEmail
| Unauthenticated
| InvalidToken
| NotFound
| Forbidden.

Definition classify (e : HTTPException) : option Failure :=
  if status_code e =? 400 then Some DuplicateEmail
  else if status_code e =? 401 then Some Unauthenticated
  else if status_code e =? 403 then Some Forbidden
  else if status_code e =? 404 then Some NotFound
  else None.

Definition failure {A} (r : DB * (HTTPException + A)) : option Failure :=
  match snd r with
  | inl e => classify e
  | inr _ => None
  end.

(** The authorization rule in the specification's words: an admin may
    access anything, a user only what they own. *)
Definition canAccess_spec (identity : User) (resourceOwnerId : Z) : bool :=
  match u_role identity with
  | admin => true
  | user => u_id identity =? resourceOwnerId
  end.

(** The most recent inspection in the specification's words: the one
    with the greatest date; of several with that date, the one scanned
    first. *)
Fixpoint most_recent_spec (l : list Inspection) : option Inspection :=
  match l with
  | [] => None
  | i :: l' =>
      match most_recent_spec l' with
      | None => Some i
      | Some j => if i_date j <=? i_date i then Some i else Some j
      end
  end.

Definition inspections_of (db : DB) (car : Car) : list Inspection :=
  filter (fun i => i_car_id i =? c_id car) (inspections db).

Definition has_bad_reading (i : Inspection) : Prop :=
  i_frontLeft i = bad \/ i_frontRight i = bad
  \/ i_rearLeft i = bad \/ i_rearRight i = bad.

(** A failing vehicle: its most recent inspection has a bad reading. *)
Definition failing_spec (db : DB) (car : Car) : bool :=
  match most_recent_spec (inspections_of db car) with
  | Some i => any_bad i
  | None => false
  end.

Definition owned_by (u : User) (c : Car) : bool := c_user_id c =? u_id u.

Definition failed_cars_spec (db : DB) (u : User) : Z :=
  len (filter (failing_spec db) (filter (owned_by u) (cars db))).

(** An inspection counts for a user when some vehicle with the
    inspection's [car_id] belongs to that user. *)
Definition parent_owned_by (db : DB) (u : User) (i : Inspection) : bool :=
  existsb (fun c => (c_id c =? i_car_id i) && owned_by u c) (cars db).

Definition inspections_total_spec (db : DB) (u : User) : Z :=
  len (filter (parent_owned_by db u) (inspections db)).

(** ** Store invariants *)

(** Every inspection's [car_id] is the key of a stored car. *)
Definition inspections_reference_cars (db : DB) : bool :=
  forallb (fun i => existsb (fun c => c_id c =? i_car_id i) (cars db))
          (inspections db).

(** The same invariant as a proposition. *)
Definition references_ok (db : DB) : Prop :=
  forall i, In i (inspections db) ->
            exists c, In c (cars db) /\ c_id c = i_car_id i.

(** ** Token service *)

Module TokenService.

Record Token := mkToken {
  claims : fields;
  signature : string
}.

Section WithSigner.

(** The keyed signature over the claims; the algorithm is chosen by
    [app/auth.py]. *)
Variable sign : string -> fields -> string.
Variable secret : string.

(** Modelled from the spec: [app/auth.py] is missing, so [issue]
    follows section 4.2: the token embeds the subject and the
    absolute expiry [now + ttl] and is signed with the secret. *)
Definition issue (now : Z) (subject : Z) (ttl : Z) : Token :=
  let payload := [ ("sub", VInt subject); ("exp", VDateTime (now + ttl)) ] in
  mkToken payload (sign secret payload).

(** Modelled from the spec: the payload of a token is well formed
    when it carries a subject and an expiry ([app/auth.py] is
    missing). *)
Definition decode (payload : fields) : option (Z * Z) :=
  match field_get "sub" payload, field_get "exp" payload with
  | Some (VInt subject), Some (VDateTime expiry) => Some (subject, expiry)
  | _, _ => None
  end.

(** Modelled from the spec: [app/auth.py] is missing, so [verify]
    follows section 4.2: it fails with [InvalidToken] if the
    signature does not match, the payload is malformed, or the
    expiry is in the past at the verification clock [now]; otherwise
    it returns the subject. *)
Definition verify (now : Z) (t : Token) : Failure + Z :=
  if String.eqb (signature t) (sign secret (claims t)) then
    match decode (claims t) with
    | Some (subject, expiry) =>
        if expiry <? now then inl InvalidToken else inr subject
    | None => inl InvalidToken
    end
  else inl InvalidToken.

End WithSigner.

End TokenService.

(** ** A small populated store

    Alice owns one car with two inspections, the earlier one failing;
    Bob owns one car without inspections; Root is an administrator. *)

Definition alice : User := mkUser 1 "Alice" "a@x.com" "111" "h-a" user.
Definition bob : User := mkUser 2 "Bob" "b@x.com" "222" "h-b" user.
Definition root : User := mkUser 3 "Root" "r@x.com" "333" "h-r" admin.

Definition demo_db : DB :=
  mkDB [alice; bob; root]
       [ mkCar 1 1 "Fiat" "Panda" 2012 "KR 1"; mkCar 2 2 "Opel" "Astra" 2015 "WA 2" ]
       [ mkInspection 1 1 100 bad good good good None;
         mkInspection 2 1 200 good good good good (Some "ok") ].

Definition all_good_at (t : Z) : InspectionCreate :=
  mkInspectionCreate t good good good good None.

(** ** The walk-through of the specification's scenarios

    Register A, let A create a car, read the profile; add an inspection
    with a bad front-left tyre, read the profile; add a later all-good
    inspection, read the profile.  Then B, a second user, and an admin
    each try to read A's car. *)

Definition toy_hash (p : string) : string := ("h-" ++ p)%string.

Definition bad_front_left_at (t : Z) : InspectionCreate :=
  mkInspectionCreate t bad good good good None.

Definition profile_scenario : M (MeResponse * MeResponse * MeResponse) :=
  a <- register toy_hash (mkUserCreate "A" "a@x.com" "1" None "pw-a") ;;
  v1 <- create_car (mkCarCreate "Fiat" "Panda" 2012 "KR 1") a ;;
  m1 <- me a ;;
  create_inspection (c_id v1) (bad_front_left_at 10) a ;;;
  m2 <- me a ;;
  create_inspection (c_id v1) (all_good_at 20) a ;;;
  m3 <- me a ;;
  ret (m1, m2, m3).

Definition access_scenario : M (bool * bool * bool) :=
  a <- register toy_hash (mkUserCreate "A" "a@x.com" "1" None "pw-a") ;;
  b <- register toy_hash (mkUserCreate "B" "b@x.com" "2" None "pw-b") ;;
  r <- register toy_hash (mkUserCreate "R" "r@x.com" "3" (Some admin) "pw-r") ;;
  v1 <- create_car (mkCarCreate "Fiat" "Panda" 2012 "KR 1") a ;;
  fun db =>
    (db, inr (succeeds (get_car (c_id v1) a db),
              succeeds (get_car (c_id v1) b db),
              succeeds (get_car (c_id v1) r db))).

Definition empty_db : DB := mkDB [] [] [].

(** A keyed checksum standing in for the signature algorithm. *)
Definition toy_sign (key : string) (payload : fields) : string :=
  (key ++ "." ++ String.concat "," (map fst payload))%string.

(** ** Vocabulary for the properties of the remaining behaviour *)

(** Latest first: the order of [order_by(Inspection.date.desc())]. *)
Definition date_desc (a b : Inspection) : Prop := i_date b <= i_date a.

(** No key occurs twice. *)
Fixpoint distinct (ids : list Z) : bool :=
  match ids with
  | [] => true
  | k :: ids' => negb (existsb (Z.eqb k) ids') && distinct ids'
  end.

Fixpoint distinct_str (l : list string) : bool :=
  match l with
  | [] => true
  | k :: l' => negb (existsb (String.eqb k) l') && distinct_str l'
  end.

(** [primary_key=True] on the three [id] columns. *)
Definition primary_keys_unique (db : DB) : bool :=
  distinct (map u_id (users db))
  && distinct (map c_id (cars db))
  && distinct (map i_id (inspections db)).

(** [unique=True] on [User.email]. *)
Definition emails_unique (db : DB) : bool :=
  distinct_str (map u_email (users db)).

(** The same as a proposition. *)
Definition keys_NoDup (db : DB) : Prop :=
  NoDup (map u_id (users db))
  /\ NoDup (map c_id (cars db))
  /\ NoDup (map i_id (inspections db)).


(** ** Binding integers as query parameters

    The store keeps integers in signed 64-bit columns.  The path
    parameters [car_id: int] and [inspection_id: int] and the body field
    [year: int] are Python integers of any size; when a statement binds
    one that does not fit, the driver raises [OverflowError].  No handler
    catches it, so the request ends in an internal server error and the
    session is closed without a commit. *)

Definition INT64_MIN : Z := - 2 ^ 63.
Definition INT64_MAX : Z := 2 ^ 63 - 1.

Definition binds (n : Z) : bool := (INT64_MIN <=? n) && (n <=? INT64_MAX).

(** How a request ends: with the handler's return value, with an
    [HTTPException], or with an exception that nothing handles. *)
Inductive Outcome (A : Type) :=
| Returned (a : A)
| Raised (e : HTTPException)
| Unhandled (exc : string).

Arguments Returned {A} a.
Arguments Raised {A} e.
Arguments Unhandled {A} exc.

Definition OverflowError : string := "OverflowError".

(** The key that the first statement of the handler, [db.get], binds. *)
Definition path_key (req : Request) : Z :=
  match target req with
  | Vehicle k => k
  | AnInspection k => k
  end.

(** The integers of the body that [db.commit()] binds when it writes the
    row: the year of a car update.  An inspection body carries none, and
    the [car_id] of a new inspection is the path key again. *)
Definition committed_ints (req : Request) : list Z :=
  match req with
  | PUT_car _ car_in => [cc_year car_in]
  | _ => []
  end.

Definition request_binds (req : Request) : bool :=
  binds (path_key req) && forallb binds (committed_ints req).

(** A resource route from the first statement to the response: [db.get]
    binds the path key, the handler body runs, and a write binds the
    body's integers at commit. *)
Definition serve (current_user : User) (req : Request) (db : DB)
  : DB * Outcome Response :=
  if binds (path_key req) then
    match handle current_user req db with
    | (db', inr r) =>
        if forallb binds (committed_ints req) then (db', Returned r)
        else (db, Unhandled OverflowError)
    | (db', inl e) => (db', Raised e)
    end
  else (db, Unhandled OverflowError).




(** * Properties *)

(** ** The inline ownership check *)

Lemma UserRole_eqb_eq (a b : UserRole) : UserRole_eqb a b = true <-> a = b.
Proof. destruct a, b; simpl; split; congruence. Qed.

Lemma check_owner_allowed (u : User) (c : Car) (db : DB) :
  u_role u = admin \/ u_id u = c_user_id c ->
  check_owner u c db = (db, inr tt).
Proof.
  unfold check_owner. intros [Hr | Hi].
  - rewrite Hr. reflexivity.
  - rewrite Hi, Z.eqb_refl, andb_false_r. reflexivity.
Qed.

Lemma check_owner_denied (u : User) (c : Car) (db : DB) :
  u_role u <> admin -> u_id u <> c_user_id c ->
  check_owner u c db = (db, inl (mkHTTPException 403 "Not your car")).
Proof.
  unfold check_owner. intros Hr Hi.
  destruct (UserRole_eqb (u_role u) admin) eqn:E.
  - apply UserRole_eqb_eq in E. contradiction.
  - destruct (c_user_id c =? u_id u) eqn:E'.
    + apply Z.eqb_eq in E'. congruence.
    + reflexivity.
Qed.

Lemma allowed_dec (u : User) (owner : Z) :
  {u_role u = admin \/ u_id u = owner}
  + {u_role u <> admin /\ u_id u <> owner}.
Proof.
  destruct (u_role u).
  - destruct (Z.eq_dec (u_id u) owner); [left | right]; auto.
    split; [discriminate | assumption].
  - left; auto.
Qed.

Lemma canAccess_spec_iff (u : User) (owner : Z) :
  canAccess_spec u owner = true <-> u_role u = admin \/ u_id u = owner.
Proof.
  unfold canAccess_spec. destruct (u_role u).
  - rewrite Z.eqb_eq. split; [auto | intros [H | H]; [discriminate | exact H]].
  - split; auto.
Qed.

Lemma check_owner_canAccess (u : User) (c : Car) (db : DB) :
  succeeds (check_owner u c db) = canAccess_spec u (c_user_id c).
Proof.
  destruct (allowed_dec u (c_user_id c)) as [H | [H1 H2]].
  - rewrite (check_owner_allowed _ _ _ H). symmetry.
    apply canAccess_spec_iff; exact H.
  - rewrite (check_owner_denied _ _ _ H1 H2). symmetry.
    apply not_true_is_false. rewrite canAccess_spec_iff. tauto.
Qed.

(** ** Primary-key lookups *)

Lemma get_Car_some (db : DB) (k : Z) (c : Car) :
  get_Car db k = Some c -> In c (cars db) /\ c_id c = k.
Proof.
  unfold get_Car. intros H. apply find_some in H.
  destruct H as [H1 H2]. apply Z.eqb_eq in H2. auto.
Qed.

Lemma get_Inspection_some (db : DB) (k : Z) (i : Inspection) :
  get_Inspection db k = Some i -> In i (inspections db) /\ i_id i = k.
Proof.
  unfold get_Inspection. intros H. apply find_some in H.
  destruct H as [H1 H2]. apply Z.eqb_eq in H2. auto.
Qed.

(** ** What each handler does once its target is resolved *)

Ltac run_handler :=
  unfold handle, fmap, get_car, update_car, delete_car, list_inspections,
    create_inspection, update_inspection, delete_inspection,
    bind, query, or_raise, ret, raise, commit; simpl.

Lemma handle_absent (u : User) (req : Request) (db : DB) :
  resource_owner db (target req) = None ->
  exists msg, handle u req db = (db, inl (mkHTTPException 404 msg)).
Proof.
  destruct req; simpl; intros H; run_handler;
    try (destruct (get_Car db car_id); [discriminate | eexists; reflexivity]);
    (destruct (get_Inspection db inspection_id) as [i |];
     [destruct (get_Car db (i_car_id i)); [discriminate |] |];
     eexists; reflexivity).
Qed.

Lemma handle_denied (u : User) (req : Request) (db : DB) (owner : Z) :
  resource_owner db (target req) = Some owner ->
  u_role u <> admin -> u_id u <> owner ->
  handle u req db = (db, inl (mkHTTPException 403 "Not your car")).
Proof.
  destruct req; simpl; intros H Hr Hi; run_handler;
    try (destruct (get_Car db car_id) as [c |]; [| discriminate];
         simpl in H; injection H as <-;
         rewrite (check_owner_denied u c db Hr Hi); reflexivity);
    (destruct (get_Inspection db inspection_id) as [i |]; [| discriminate];
     destruct (get_Car db (i_car_id i)) as [c |]; [| discriminate];
     simpl in H; injection H as <-;
     rewrite (check_owner_denied u c db Hr Hi); reflexivity).
Qed.

Lemma handle_allowed (u : User) (req : Request) (db : DB) (owner : Z) :
  resource_owner db (target req) = Some owner ->
  u_role u = admin \/ u_id u = owner ->
  succeeds (handle u req db) = true.
Proof.
  destruct req; simpl; intros H Ha; run_handler;
    try (destruct (get_Car db car_id) as [c |]; [| discriminate];
         simpl in H; injection H as <-;
         rewrite (check_owner_allowed u c db Ha); reflexivity);
    (destruct (get_Inspection db inspection_id) as [i |]; [| discriminate];
     destruct (get_Car db (i_car_id i)) as [c |]; [| discriminate];
     simpl in H; injection H as <-;
     rewrite (check_owner_allowed u c db Ha); reflexivity).
Qed.

(** ** Authorization of the resource operations *)

(** C1: for every identity and every vehicle or inspection operation
    whose target exists with a resolvable owner (for an inspection: the
    owner of its parent vehicle), the operation is let through if and
    only if the identity is an admin or is the owner.  [handle] covers
    every read, update and delete route of both resource kinds, so no
    such route goes around the check. *)
Theorem access_iff_admin_or_owner
    (db : DB) (u : User) (req : Request) (owner : Z) :
  resource_owner db (target req) = Some owner ->
  (succeeds (handle u req db) = true <-> u_role u = admin \/ u_id u = owner).
Proof.
  intros Ho. split.
  - intros Hs. destruct (allowed_dec u owner) as [Ha | [Hr Hi]]; [exact Ha |].
    rewrite (handle_denied u req db owner Ho Hr Hi) in Hs. discriminate.
  - apply handle_allowed; exact Ho.
Qed.

Lemma access_iff_admin_or_owner_witness :
  resource_owner demo_db (target (PUT_inspection 2 (all_good_at 300))) = Some 1
  /\ (succeeds (handle bob (PUT_inspection 2 (all_good_at 300)) demo_db) = true
      <-> u_role bob = admin \/ u_id bob = 1).
Proof.
  split.
  - reflexivity.
  - apply (access_iff_admin_or_owner demo_db bob
             (PUT_inspection 2 (all_good_at 300)) 1).
    reflexivity.
Defined.

(** The handler bodies, for a path key the driver has bound: an absent
    resource gives NotFound whatever the caller's role or ownership, an
    existing resource that the rule denies gives Forbidden; the two are
    different failure kinds, and neither changes the store. *)
Theorem not_found_then_forbidden (db : DB) (u : User) (req : Request) :
  (resource_exists db (target req) = false ->
   handle u req db = (db, snd (handle u req db))
   /\ failure (handle u req db) = Some NotFound)
  /\ (forall owner,
        resource_owner db (target req) = Some owner ->
        ~ (u_role u = admin \/ u_id u = owner) ->
        resource_exists db (target req) = true
        /\ handle u req db = (db, snd (handle u req db))
        /\ failure (handle u req db) = Some Forbidden)
  /\ NotFound <> Forbidden.
Proof.
  split; [| split; [| discriminate]].
  - intros He.
    assert (Ho : resource_owner db (target req) = None).
    { destruct (target req) as [k | k]; simpl in *.
      - destruct (get_Car db k); [discriminate | reflexivity].
      - destruct (get_Inspection db k); [discriminate | reflexivity]. }
    destruct (handle_absent u req db Ho) as [msg Hm].
    rewrite Hm. split; reflexivity.
  - intros owner Ho Hd.
    assert (Hr : u_role u <> admin) by tauto.
    assert (Hi : u_id u <> owner) by tauto.
    rewrite (handle_denied u req db owner Ho Hr Hi).
    split; [| split; reflexivity].
    destruct (target req) as [k | k]; simpl in *.
    + destruct (get_Car db k); [reflexivity | discriminate].
    + destruct (get_Inspection db k); [reflexivity | discriminate].
Qed.

Lemma not_found_then_forbidden_witness :
  failure (handle root (DELETE_inspection 7) demo_db) = Some NotFound
  /\ failure (handle bob (DELETE_inspection 1) demo_db) = Some Forbidden.
Proof.
  split.
  - apply (proj1 (not_found_then_forbidden demo_db root (DELETE_inspection 7))).
    reflexivity.
  - apply (proj1 (proj2 (not_found_then_forbidden demo_db bob
                           (DELETE_inspection 1))) 1).
    + reflexivity.
    + simpl. intros [H | H]; discriminate.
Defined.

(** ** The latest inspection of a car *)

Lemma first_insert_date_desc (i : Inspection) (l : list Inspection) :
  first (insert_date_desc i l)
  = match first l with
    | None => Some i
    | Some j => if i_date j <=? i_date i then Some i else Some j
    end.
Proof.
  destruct l as [| j l]; simpl; [reflexivity |].
  destruct (i_date j <=? i_date i); reflexivity.
Qed.

Lemma first_order_by_date_desc (l : list Inspection) :
  first (order_by_date_desc l) = most_recent_spec l.
Proof.
  induction l as [| i l IH]; simpl; [reflexivity |].
  fold (order_by_date_desc l).
  rewrite first_insert_date_desc, IH. reflexivity.
Qed.

Lemma last_inspection_most_recent (db : DB) (car : Car) :
  last_inspection db car = most_recent_spec (inspections_of db car).
Proof. apply first_order_by_date_desc. Qed.

Lemma most_recent_spec_max (l : list Inspection) (i : Inspection) :
  most_recent_spec l = Some i ->
  In i l /\ forall j, In j l -> i_date j <= i_date i.
Proof.
  revert i. induction l as [| a l IH]; simpl; intros i H; [discriminate |].
  destruct (most_recent_spec l) as [m |] eqn:E.
  - destruct (IH m eq_refl) as [Hin Hmax].
    destruct (i_date m <=? i_date a) eqn:Hc; injection H as <-.
    + apply Z.leb_le in Hc. split; [left; reflexivity |].
      intros j [<- | Hj]; [lia |]. specialize (Hmax j Hj). lia.
    + apply Z.leb_gt in Hc. split; [right; exact Hin |].
      intros j [<- | Hj]; [lia | apply Hmax; exact Hj].
  - injection H as <-. split; [left; reflexivity |].
    destruct l as [| b l]; [intros j [<- | []]; lia |].
    simpl in E. destruct (most_recent_spec l) as [m |];
      [destruct (i_date m <=? i_date b) |]; discriminate.
Qed.

Lemma most_recent_spec_none (l : list Inspection) :
  most_recent_spec l = None <-> l = [].
Proof.
  split; [| intros ->; reflexivity].
  destruct l as [| a l]; [reflexivity |]. simpl.
  destruct (most_recent_spec l) as [m |];
    [destruct (i_date m <=? i_date a) |]; discriminate.
Qed.

Lemma most_recent_spec_strict (l : list Inspection) (i : Inspection) :
  In i l ->
  (forall j, In j l -> i_date j < i_date i \/ j = i) ->
  most_recent_spec l = Some i.
Proof.
  intros Hin Hlt.
  destruct (most_recent_spec l) as [m |] eqn:E.
  - destruct (most_recent_spec_max l m E) as [Hm Hmax].
    destruct (Hlt m Hm) as [Hlt' | ->]; [| reflexivity].
    specialize (Hmax i Hin). lia.
  - apply most_recent_spec_none in E. subst l. destruct Hin.
Qed.

Lemma in_inspections_of (db : DB) (car : Car) (i : Inspection) :
  In i (inspections_of db car)
  <-> In i (inspections db) /\ i_car_id i = c_id car.
Proof.
  unfold inspections_of. rewrite filter_In, Z.eqb_eq. reflexivity.
Qed.

Lemma TyreCondition_eqb_eq (a b : TyreCondition) :
  TyreCondition_eqb a b = true <-> a = b.
Proof. destruct a, b; simpl; split; congruence. Qed.

Lemma any_bad_iff (i : Inspection) : any_bad i = true <-> has_bad_reading i.
Proof.
  unfold any_bad, has_bad_reading.
  rewrite !orb_true_iff, !TyreCondition_eqb_eq. tauto.
Qed.

(** ** The counting loop of [me] *)

Lemma len_cons {A} (a : A) (l : list A) : len (a :: l) = len l + 1.
Proof. unfold len. simpl List.length. lia. Qed.

Lemma failed_cars_loop (db : DB) (l : list Car) (acc : Z) :
  fold_left (failed_cars_step db) l acc
  = acc + len (filter (failing_spec db) l).
Proof.
  revert acc. induction l as [| c l IH]; intros acc; simpl.
  - unfold len. simpl. lia.
  - rewrite IH. unfold failed_cars_step, failing_spec.
    rewrite last_inspection_most_recent.
    destruct (most_recent_spec (inspections_of db c)) as [i |].
    + destruct (any_bad i); [rewrite len_cons |]; lia.
    + reflexivity.
Qed.

Lemma me_returns (db : DB) (u : User) :
  exists r, me u db = (db, inr r)
    /\ cars_assigned r = len (filter (owned_by u) (cars db))
    /\ failed_cars r = fold_left (failed_cars_step db)
                                 (filter (owned_by u) (cars db)) 0
    /\ inspections_total r
       = match filter (owned_by u) (cars db) with
         | [] => 0
         | cs => len (filter (fun i => existsb (Z.eqb (i_car_id i)) (map c_id cs))
                             (inspections db))
         end.
Proof.
  unfold me, bind, query, ret. simpl.
  change (fun c => c_user_id c =? u_id u) with (owned_by u).
  destruct (filter (owned_by u) (cars db)) as [| c cs];
    eexists; (split; [reflexivity |]); simpl; auto.
Qed.

(** C3: the profile's [failed_cars] is the number of the user's cars
    whose most recent inspection has a bad reading on one of the four
    tyres.  The most recent inspection is an inspection of that car whose
    date no other inspection of the car exceeds; a car without
    inspections is not counted, and neither is a car whose strictly
    latest inspection is all good, whatever came before. *)
Theorem failed_cars_counts_latest_failing (db : DB) (u : User) :
  exists r,
    me u db = (db, inr r)
    /\ failed_cars r = failed_cars_spec db u
    /\ (forall c,
          failing_spec db c = true
          <-> exists i, most_recent_spec (inspections_of db c) = Some i
                        /\ has_bad_reading i)
    /\ (forall c i,
          most_recent_spec (inspections_of db c) = Some i ->
          In i (inspections db) /\ i_car_id i = c_id c
          /\ forall j, In j (inspections db) -> i_car_id j = c_id c ->
                       i_date j <= i_date i)
    /\ (forall c,
          most_recent_spec (inspections_of db c) = None
          <-> inspections_of db c = [])
    /\ (forall c, inspections_of db c = [] -> failing_spec db c = false)
    /\ (forall c i,
          In i (inspections db) -> i_car_id i = c_id c ->
          (forall j, In j (inspections db) -> i_car_id j = c_id c ->
                     i_date j < i_date i \/ j = i) ->
          ~ has_bad_reading i ->
          failing_spec db c = false).
Proof.
  destruct (me_returns db u) as [r [Hr [_ [Hf _]]]].
  exists r. split; [exact Hr |].
  split; [rewrite Hf, failed_cars_loop; reflexivity |].
  split; [| split; [| split; [| split]]].
  - intros c. unfold failing_spec.
    destruct (most_recent_spec (inspections_of db c)) as [i |].
    + rewrite any_bad_iff. split.
      * intros H. exists i. auto.
      * intros [i' [Hi' Hb]]. injection Hi' as <-. exact Hb.
    + split; [discriminate | intros [i [H _]]; discriminate].
  - intros c i H. apply most_recent_spec_max in H. destruct H as [Hin Hmax].
    apply in_inspections_of in Hin. destruct Hin as [Hin Hc].
    split; [exact Hin | split; [exact Hc |]].
    intros j Hj Hjc. apply Hmax. apply in_inspections_of. auto.
  - intros c. apply most_recent_spec_none.
  - intros c H. unfold failing_spec. rewrite H. reflexivity.
  - intros c i Hin Hc Hlt Hg. unfold failing_spec.
    rewrite (most_recent_spec_strict (inspections_of db c) i).
    + apply not_true_is_false. rewrite any_bad_iff. exact Hg.
    + apply in_inspections_of. auto.
    + intros j Hj. apply in_inspections_of in Hj. destruct Hj. auto.
Qed.

(** The profile of Alice in the demo store: her only car had a failing
    inspection at date 100 and an all-good one at date 200. *)
Lemma failed_cars_counts_latest_failing_witness :
  exists r, me alice demo_db = (demo_db, inr r)
            /\ failed_cars r = 0
            /\ failing_spec demo_db (mkCar 1 1 "Fiat" "Panda" 2012 "KR 1") = false.
Proof.
  destruct (failed_cars_counts_latest_failing demo_db alice)
    as [r [Hr [Hf [_ [_ [_ [_ Hs]]]]]]].
  exists r. split; [exact Hr |]. split; [rewrite Hf; reflexivity |].
  apply (Hs _ (mkInspection 2 1 200 good good good good (Some "ok"))).
  - simpl. auto.
  - reflexivity.
  - simpl. intros j [<- | [<- | []]] _; [left; reflexivity | right; reflexivity].
  - unfold has_bad_reading. simpl. intros [H | [H | [H | H]]]; discriminate.
Defined.

(** ** Inspections counted for the profile *)

Lemma in_owned_ids (u : User) (k : Z) (l : list Car) :
  existsb (Z.eqb k) (map c_id (filter (owned_by u) l))
  = existsb (fun c => (c_id c =? k) && owned_by u c) l.
Proof.
  induction l as [| c l IH]; simpl; [reflexivity |].
  destruct (owned_by u c); simpl.
  - rewrite IH, andb_true_r, (Z.eqb_sym k). reflexivity.
  - rewrite IH, andb_false_r. reflexivity.
Qed.

(** With unique primary keys, "some car with that key is owned by the
    user" and "the car that [db.get] returns is owned by the user" are
    the same. *)
Lemma parent_owned_by_get (db : DB) (u : User) (i : Inspection) :
  NoDup (map c_id (cars db)) ->
  parent_owned_by db u i
  = match get_Car db (i_car_id i) with
    | Some c => owned_by u c
    | None => false
    end.
Proof.
  unfold parent_owned_by, get_Car.
  induction (cars db) as [| r l IH]; simpl; intros Hnd; [reflexivity |].
  inversion Hnd as [| ? ? Hnotin Hnd']; subst.
  destruct (Z.eqb_spec (c_id r) (i_car_id i)) as [E | E]; simpl.
  - replace (existsb _ l) with false; [apply orb_false_r |].
    symmetry. apply not_true_is_false. intros Hex.
    apply existsb_exists in Hex. destruct Hex as [c [Hc Hb]].
    apply andb_true_iff in Hb. destruct Hb as [Hb _].
    apply Z.eqb_eq in Hb. apply Hnotin. rewrite E, <- Hb.
    apply in_map. exact Hc.
  - apply IH. exact Hnd'.
Qed.

(** C5: the profile's [inspections_total] is the number of inspections
    whose parent car belongs to the user, and it is 0 when the user has
    no car. *)
Theorem inspections_total_counts_owned (db : DB) (u : User) :
  exists r,
    me u db = (db, inr r)
    /\ inspections_total r = inspections_total_spec db u
    /\ (filter (owned_by u) (cars db) = [] -> inspections_total r = 0).
Proof.
  destruct (me_returns db u) as [r [Hr [_ [_ Ht]]]].
  exists r. split; [exact Hr |].
  assert (Hext : forall i,
             existsb (Z.eqb (i_car_id i))
                     (map c_id (filter (owned_by u) (cars db)))
             = parent_owned_by db u i)
    by (intros i; apply in_owned_ids).
  split.
  - rewrite Ht. unfold inspections_total_spec.
    destruct (filter (owned_by u) (cars db)) as [| c cs] eqn:E.
    + rewrite (filter_ext (parent_owned_by db u) (fun _ => false)).
      * clear. induction (inspections db); simpl; auto.
      * intros i. rewrite <- Hext. reflexivity.
    + rewrite (filter_ext _ _ Hext). reflexivity.
  - intros E. rewrite Ht, E. reflexivity.
Qed.

Lemma inspections_total_counts_owned_witness :
  exists r, me root demo_db = (demo_db, inr r) /\ inspections_total r = 0.
Proof.
  destruct (inspections_total_counts_owned demo_db root) as [r [Hr [_ H0]]].
  exists r. split; [exact Hr | apply H0; reflexivity].
Defined.

(** ** Listing vehicles *)

(** C4: an admin's listing is every stored car and a user's listing is
    exactly the cars that user owns; in both cases the scoped query
    returns what filtering all cars by the authorization rule returns,
    whether the rule is read from the specification or run as the
    handlers' inline check. *)
Theorem list_cars_is_guard_filter (db : DB) (u : User) :
  list_cars u db
  = (db, inr (match u_role u with
              | admin => cars db
              | user => filter (owned_by u) (cars db)
              end))
  /\ list_cars u db
     = (db, inr (filter (fun c => canAccess_spec u (c_user_id c)) (cars db)))
  /\ list_cars u db
     = (db, inr (filter (fun c => succeeds (check_owner u c db)) (cars db)))
  /\ (forall l, snd (list_cars u db) = inr l ->
      forall c, In c l <-> In c (cars db)
                           /\ (u_role u = admin \/ u_id u = c_user_id c)).
Proof.
  assert (H1 : list_cars u db
               = (db, inr (match u_role u with
                           | admin => cars db
                           | user => filter (owned_by u) (cars db)
                           end))).
  { unfold list_cars, query. destruct (u_role u); reflexivity. }
  assert (H2 : list_cars u db
               = (db, inr (filter (fun c => canAccess_spec u (c_user_id c))
                                  (cars db)))).
  { rewrite H1. unfold canAccess_spec. destruct (u_role u).
    - do 2 f_equal. apply filter_ext. intros c. apply Z.eqb_sym.
    - do 2 f_equal. generalize (cars db) as l. intros l.
      induction l as [| c l IH]; simpl; [reflexivity |].
      rewrite <- IH. reflexivity. }
  split; [exact H1 | split; [exact H2 | split]].
  - rewrite H2. do 2 f_equal. apply filter_ext. intros c.
    symmetry. apply check_owner_canAccess.
  - intros l Hl c. rewrite H2 in Hl. simpl in Hl. injection Hl as <-.
    rewrite filter_In, canAccess_spec_iff. reflexivity.
Qed.

(** ** Registration *)

Lemma first_filter_none {A} (p : A -> bool) (l : list A) :
  (forall x, In x l -> p x = false) -> first (filter p l) = None.
Proof.
  induction l as [| a l IH]; simpl; intros H; [reflexivity |].
  rewrite (H a (or_introl eq_refl)). apply IH. intros x Hx. apply H. auto.
Qed.

Lemma first_filter_some {A} (p : A -> bool) (l : list A) (x : A) :
  In x l -> p x = true -> exists y, first (filter p l) = Some y.
Proof.
  induction l as [| a l IH]; simpl; intros Hin Hp; [destruct Hin |].
  destruct (p a) eqn:E; [exists a; reflexivity |].
  destruct Hin as [-> | Hin]; [congruence | auto].
Qed.

Section RegisterFacts.

Variable hash_password : string -> string.

Lemma register_duplicate (db : DB) (body : UserCreate) :
  (exists u0, In u0 (users db) /\ u_email u0 = uc_email body) ->
  register hash_password body db
  = (db, inl (mkHTTPException 400 "Email already in use")).
Proof.
  intros [u0 [Hin He]]. unfold register, bind, query. simpl.
  destruct (first_filter_some
              (fun u => String.eqb (u_email u) (uc_email body))
              (users db) u0 Hin) as [y Hy].
  - apply String.eqb_eq. exact He.
  - rewrite Hy. reflexivity.
Qed.

Lemma register_fresh (db : DB) (body : UserCreate) :
  (forall u0, In u0 (users db) -> u_email u0 <> uc_email body) ->
  register hash_password body db
  = (insert_user (created_user hash_password db body) db,
     inr (created_user hash_password db body)).
Proof.
  intros Hf. unfold register, bind, query. simpl.
  rewrite first_filter_none; [reflexivity |].
  intros x Hx. apply String.eqb_neq. apply Hf. exact Hx.
Qed.

End RegisterFacts.

(** C6: registering an email that a stored user already has fails with
    DuplicateEmail and leaves the store as it was; registering a fresh
    email appends one user row whose only password-derived column is the
    hash of the password, and the response carries name, email, phone,
    role and id, with no password and no hash. *)
Theorem register_duplicate_or_hash_only
    (hash_password : string -> string) (db : DB) (body : UserCreate) :
  ((exists u0, In u0 (users db) /\ u_email u0 = uc_email body) ->
   register hash_password body db
   = (db, inl (mkHTTPException 400 "Email already in use"))
   /\ failure (register hash_password body db) = Some DuplicateEmail)
  /\ ((forall u0, In u0 (users db) -> u_email u0 <> uc_email body) ->
      let created := created_user hash_password db body in
      register hash_password body db
      = (mkDB (users db ++ [created]) (cars db) (inspections db), inr created)
      /\ u_password_hash created = hash_password (uc_password body)
      /\ UserOut created
         = [ ("name", VStr (uc_name body)); ("email", VStr (uc_email body));
             ("phone", VStr (uc_phone body));
             ("role", VRole (UserCreate_role body));
             ("id", VInt (u_id created)) ]
      /\ field_get "password" (UserOut created) = None
      /\ field_get "password_hash" (UserOut created) = None).
Proof.
  split.
  - intros Hd. rewrite (register_duplicate hash_password db body Hd).
    split; reflexivity.
  - intros Hf. simpl. rewrite (register_fresh hash_password db body Hf).
    repeat split.
Qed.

Lemma register_duplicate_or_hash_only_witness :
  register (fun p => "h-" ++ p)%string
           (mkUserCreate "Al" "a@x.com" "999" None "pw") demo_db
  = (demo_db, inl (mkHTTPException 400 "Email already in use"))
  /\ fst (register (fun p => "h-" ++ p)%string
                   (mkUserCreate "Cy" "c@x.com" "444" None "pw") demo_db)
     = mkDB [alice; bob; root; mkUser 4 "Cy" "c@x.com" "444" "h-pw" user]
            (cars demo_db) (inspections demo_db).
Proof.
  split.
  - apply (proj1 (register_duplicate_or_hash_only
                    (fun p => "h-" ++ p)%string demo_db
                    (mkUserCreate "Al" "a@x.com" "999" None "pw"))).
    exists alice. split; [simpl; auto | reflexivity].
  - rewrite (proj1 (proj2 (register_duplicate_or_hash_only
                    (fun p => "h-" ++ p)%string demo_db
                    (mkUserCreate "Cy" "c@x.com" "444" None "pw"))
                    ltac:(simpl; intros u0 [<- | [<- | [<- | []]]]; discriminate))).
    reflexivity.
Defined.

(** C8: registration takes no caller identity and stores the role of the
    request body as it is, [user] when the body omits it; a body asking
    for [admin] therefore creates an administrator. *)
Theorem register_takes_requested_role
    (hash_password : string -> string) (db : DB) (body : UserCreate) :
  (forall u0, In u0 (users db) -> u_email u0 <> uc_email body) ->
  exists created db',
    register hash_password body db = (db', inr created)
    /\ In created (users db')
    /\ u_role created = match uc_role body with
                        | Some r => r
                        | None => user
                        end
    /\ (uc_role body = Some admin -> u_role created = admin).
Proof.
  intros Hf. exists (created_user hash_password db body).
  eexists. split; [apply register_fresh; exact Hf |].
  split; [simpl; apply in_or_app; right; left; reflexivity |].
  split; [reflexivity |].
  intros Hr. simpl. unfold UserCreate_role. rewrite Hr. reflexivity.
Qed.

Lemma register_takes_requested_role_witness :
  exists created db',
    register (fun p => "h-" ++ p)%string
             (mkUserCreate "Eve" "e@x.com" "555" (Some admin) "pw") demo_db
    = (db', inr created)
    /\ u_role created = admin.
Proof.
  destruct (register_takes_requested_role
              (fun p => "h-" ++ p)%string demo_db
              (mkUserCreate "Eve" "e@x.com" "555" (Some admin) "pw"))
    as [created [db' [Hr [_ [_ Ha]]]]].
  - simpl. intros u0 [<- | [<- | [<- | []]]]; discriminate.
  - exists created, db'. split; [exact Hr | apply Ha; reflexivity].
Defined.

(** ** Updating a vehicle *)

Lemma setattrs_car (car : Car) (car_in : CarCreate) :
  setattrs setattr_car car (CarCreate_model_dump car_in)
  = mkCar (c_id car) (c_user_id car)
          (cc_make car_in) (cc_model car_in) (cc_year car_in) (cc_plate car_in).
Proof. reflexivity. Qed.

Lemma get_Car_update_row (db : DB) (k k' : Z) (new : Car) :
  c_id new = k ->
  get_Car (update_car_row k new db) k'
  = if k' =? k then option_map (fun _ => new) (get_Car db k)
    else get_Car db k'.
Proof.
  intros Hn. unfold get_Car, update_car_row. simpl.
  destruct (Z.eqb_spec k' k) as [-> | Hk].
  - induction (cars db) as [| r l IH]; simpl; [reflexivity |].
    destruct (Z.eqb_spec (c_id r) k) as [Hr | Hr]; simpl.
    + rewrite Hn, Z.eqb_refl. reflexivity.
    + destruct (Z.eqb_spec (c_id r) k); [contradiction | exact IH].
  - induction (cars db) as [| r l IH]; simpl; [reflexivity |].
    destruct (Z.eqb_spec (c_id r) k) as [Hr | Hr]; simpl.
    + rewrite Hn, Hr.
      destruct (Z.eqb_spec k k') as [E | _]; [symmetry in E; contradiction |].
      exact IH.
    + destruct (c_id r =? k'); [reflexivity | exact IH].
Qed.

(** C9: a successful vehicle update overwrites make, model, year and
    plate of the addressed car and nothing else: the car keeps its id
    and its owner, every other car is read back as before, users and
    inspections are untouched, and so the owner of every vehicle and of
    every inspection is the same after the update as before it. *)
Theorem update_car_keeps_id_and_owner
    (db db' : DB) (car_id : Z) (car_in : CarCreate) (u : User) (car' : Car) :
  update_car car_id car_in u db = (db', inr car') ->
  exists old,
    get_Car db car_id = Some old
    /\ car' = mkCar (c_id old) (c_user_id old)
                    (cc_make car_in) (cc_model car_in)
                    (cc_year car_in) (cc_plate car_in)
    /\ c_id car' = car_id
    /\ c_user_id car' = c_user_id old
    /\ get_Car db' car_id = Some car'
    /\ (forall k, k <> car_id -> get_Car db' k = get_Car db k)
    /\ users db' = users db
    /\ inspections db' = inspections db
    /\ (forall t, resource_owner db' t = resource_owner db t).
Proof.
  unfold update_car, bind, query, or_raise, ret, raise, commit. simpl.
  destruct (get_Car db car_id) as [old |] eqn:Hg; [| discriminate].
  simpl. destruct (check_owner u old db) as [db1 [e | []]] eqn:Hc;
    [discriminate |].
  assert (db1 = db) as ->.
  { unfold check_owner, raise, ret in Hc.
    destruct (_ && _) in Hc; congruence. }
  intros H. injection H as <- <-.
  destruct (get_Car_some db car_id old Hg) as [_ Hid].
  exists old. split; [reflexivity | split; [reflexivity |]].
  split; [exact Hid | split; [reflexivity |]].
  assert (Hl : forall k,
             get_Car (update_car_row (c_id old)
                        (mkCar (c_id old) (c_user_id old) (cc_make car_in)
                               (cc_model car_in) (cc_year car_in)
                               (cc_plate car_in)) db) k
             = if k =? car_id
               then Some (mkCar (c_id old) (c_user_id old) (cc_make car_in)
                                (cc_model car_in) (cc_year car_in)
                                (cc_plate car_in))
               else get_Car db k).
  { intros k. rewrite get_Car_update_row by reflexivity.
    rewrite Hid, Hg. reflexivity. }
  assert (Ho : forall k,
             option_map c_user_id
               (get_Car (update_car_row (c_id old)
                          (mkCar (c_id old) (c_user_id old) (cc_make car_in)
                                 (cc_model car_in) (cc_year car_in)
                                 (cc_plate car_in)) db) k)
             = option_map c_user_id (get_Car db k)).
  { intros k. rewrite Hl. destruct (k =? car_id) eqn:E; [| reflexivity].
    apply Z.eqb_eq in E. subst k. rewrite Hg. reflexivity. }
  split; [rewrite Hl, Z.eqb_refl; reflexivity |].
  split.
  { intros k Hk. rewrite Hl. apply Z.eqb_neq in Hk. rewrite Hk. reflexivity. }
  split; [reflexivity | split; [reflexivity |]].
  intros [k | k]; simpl.
  - apply Ho.
  - unfold get_Inspection at 1. simpl. fold (get_Inspection db k).
    destruct (get_Inspection db k); [apply Ho | reflexivity].
Qed.

Lemma update_car_keeps_id_and_owner_witness :
  exists old,
    get_Car demo_db 2 = Some old
    /\ c_user_id (mkCar 2 2 "Opel" "Corsa" 2016 "WA 3") = c_user_id old.
Proof.
  destruct (update_car_keeps_id_and_owner
              demo_db
              (update_car_row 2 (mkCar 2 2 "Opel" "Corsa" 2016 "WA 3") demo_db)
              2 (mkCarCreate "Opel" "Corsa" 2016 "WA 3") bob
              (mkCar 2 2 "Opel" "Corsa" 2016 "WA 3") eq_refl)
    as [old [Hg [_ [_ [Ho _]]]]].
  exists old. split; assumption.
Defined.

(** ** Inspections always have their car *)

Lemma get_Car_exists (db : DB) (k : Z) :
  existsb (fun c => c_id c =? k) (cars db) = true ->
  exists c, get_Car db k = Some c.
Proof.
  unfold get_Car. induction (cars db) as [| r l IH]; simpl; [discriminate |].
  destruct (c_id r =? k); [exists r; reflexivity | exact IH].
Qed.

Lemma parent_car_exists (db : DB) (i : Inspection) :
  inspections_reference_cars db = true ->
  In i (inspections db) ->
  exists c, get_Car db (i_car_id i) = Some c.
Proof.
  unfold inspections_reference_cars. rewrite forallb_forall.
  intros H Hin. apply get_Car_exists. apply H. exact Hin.
Qed.

Lemma update_inspection_cases
    (db : DB) (u : User) (k : Z) (body : InspectionCreate) :
  inspections_reference_cars db = true ->
  (get_Inspection db k = None
   /\ update_inspection k body u db
      = (db, inl (mkHTTPException 404 "Inspection not found")))
  \/ (get_Inspection db k <> None
      /\ (update_inspection k body u db
          = (db, inl (mkHTTPException 403 "Not your car"))
          \/ succeeds (update_inspection k body u db) = true)).
Proof.
  intros Hinv. unfold update_inspection, bind, query, or_raise, ret, raise,
    commit. simpl.
  destruct (get_Inspection db k) as [i |] eqn:Hi; [right | left; auto].
  split; [discriminate |]. simpl.
  destruct (get_Inspection_some db k i Hi) as [Hin _].
  destruct (parent_car_exists db i Hinv Hin) as [c ->]. simpl.
  destruct (allowed_dec u (c_user_id c)) as [Ha | [Hr Ho]].
  - right. rewrite (check_owner_allowed u c db Ha). reflexivity.
  - left. rewrite (check_owner_denied u c db Hr Ho). reflexivity.
Qed.

Lemma delete_inspection_cases (db : DB) (u : User) (k : Z) :
  inspections_reference_cars db = true ->
  (get_Inspection db k = None
   /\ delete_inspection k u db
      = (db, inl (mkHTTPException 404 "Inspection not found")))
  \/ (get_Inspection db k <> None
      /\ (delete_inspection k u db
          = (db, inl (mkHTTPException 403 "Not your car"))
          \/ succeeds (delete_inspection k u db) = true)).
Proof.
  intros Hinv. unfold delete_inspection, bind, query, or_raise, ret, raise,
    commit. simpl.
  destruct (get_Inspection db k) as [i |] eqn:Hi; [right | left; auto].
  split; [discriminate |]. simpl.
  destruct (get_Inspection_some db k i Hi) as [Hin _].
  destruct (parent_car_exists db i Hinv Hin) as [c ->]. simpl.
  destruct (allowed_dec u (c_user_id c)) as [Ha | [Hr Ho]].
  - right. rewrite (check_owner_allowed u c db Ha). reflexivity.
  - left. rewrite (check_owner_denied u c db Hr Ho). reflexivity.
Qed.

(** C10: in a store where every inspection's [car_id] is the key of a
    stored car, updating or deleting an inspection never raises
    "Car not found", and it fails with NotFound exactly when the
    inspection itself is absent. *)
Theorem car_not_found_unreachable
    (db : DB) (u : User) (k : Z) (body : InspectionCreate) :
  inspections_reference_cars db = true ->
  snd (update_inspection k body u db)
    <> inl (mkHTTPException 404 "Car not found")
  /\ snd (delete_inspection k u db)
    <> inl (mkHTTPException 404 "Car not found")
  /\ (failure (update_inspection k body u db) = Some NotFound
      <-> get_Inspection db k = None)
  /\ (failure (delete_inspection k u db) = Some NotFound
      <-> get_Inspection db k = None).
Proof.
  intros Hinv.
  pose proof (update_inspection_cases db u k body Hinv) as Hu.
  pose proof (delete_inspection_cases db u k Hinv) as Hd.
  unfold failure, succeeds in *.
  split; [| split; [| split]].
  - destruct Hu as [[_ ->] | [_ [-> | Hs]]]; simpl; try discriminate.
    intros E. rewrite E in Hs. discriminate.
  - destruct Hd as [[_ ->] | [_ [-> | Hs]]]; simpl; try discriminate.
    intros E. rewrite E in Hs. discriminate.
  - destruct Hu as [[Hn ->] | [Hn [-> | Hs]]]; simpl.
    + split; auto.
    + split; [discriminate | contradiction].
    + destruct (snd (update_inspection k body u db));
        [discriminate | split; [discriminate | contradiction]].
  - destruct Hd as [[Hn ->] | [Hn [-> | Hs]]]; simpl.
    + split; auto.
    + split; [discriminate | contradiction].
    + destruct (snd (delete_inspection k u db));
        [discriminate | split; [discriminate | contradiction]].
Qed.

Lemma car_not_found_unreachable_witness :
  inspections_reference_cars demo_db = true
  /\ snd (update_inspection 1 (all_good_at 300) bob demo_db)
       <> inl (mkHTTPException 404 "Car not found")
  /\ (failure (delete_inspection 9 alice demo_db) = Some NotFound
      <-> get_Inspection demo_db 9 = None).
Proof.
  split; [reflexivity |].
  split.
  - apply (proj1 (car_not_found_unreachable demo_db bob 1 (all_good_at 300)
                    eq_refl)).
  - apply (proj2 (proj2 (proj2
             (car_not_found_unreachable demo_db alice 9 (all_good_at 300)
                eq_refl)))).
Defined.

(** ** The reference invariant is kept by every write *)

Lemma inspections_reference_cars_iff (db : DB) :
  inspections_reference_cars db = true <-> references_ok db.
Proof.
  unfold inspections_reference_cars, references_ok. rewrite forallb_forall.
  split; intros H i Hi.
  - apply H in Hi. apply existsb_exists in Hi. destruct Hi as [c [Hc He]].
    exists c. apply Z.eqb_eq in He. auto.
  - apply existsb_exists. destruct (H i Hi) as [c [Hc He]].
    exists c. rewrite Z.eqb_eq. auto.
Qed.

Lemma references_insert_car (db : DB) (c : Car) :
  references_ok db -> references_ok (insert_car c db).
Proof.
  intros H i Hi. destruct (H i Hi) as [c0 [Hc He]].
  exists c0. simpl. rewrite in_app_iff. auto.
Qed.

Lemma references_update_car_row (db : DB) (pk : Z) (new : Car) :
  c_id new = pk -> references_ok db -> references_ok (update_car_row pk new db).
Proof.
  intros Hn H i Hi. destruct (H i Hi) as [c [Hc He]].
  exists (if c_id c =? pk then new else c). split.
  - simpl. apply in_map_iff. exists c. auto.
  - destruct (Z.eqb_spec (c_id c) pk); congruence.
Qed.

Lemma references_delete_car_row (db : DB) (pk : Z) :
  references_ok db -> references_ok (delete_car_row pk db).
Proof.
  intros H i Hi. simpl in Hi. apply filter_In in Hi. destruct Hi as [Hi Hk].
  destruct (H i Hi) as [c [Hc He]]. exists c. split; [| exact He].
  simpl. apply filter_In. split; [exact Hc |]. rewrite He. exact Hk.
Qed.

Lemma references_insert_inspection (db : DB) (i : Inspection) (c : Car) :
  get_Car db (i_car_id i) = Some c ->
  references_ok db -> references_ok (insert_inspection i db).
Proof.
  intros Hg H j Hj. simpl in Hj. apply in_app_iff in Hj.
  destruct Hj as [Hj | [<- | []]]; [apply H; exact Hj |].
  exists c. apply get_Car_some in Hg. exact Hg.
Qed.

Lemma references_update_inspection_row (db : DB) (pk : Z) (new old : Inspection) :
  In old (inspections db) -> i_car_id new = i_car_id old ->
  references_ok db -> references_ok (update_inspection_row pk new db).
Proof.
  intros Ho Hn H j Hj. simpl in Hj. apply in_map_iff in Hj.
  destruct Hj as [r [Hr Hin]]. simpl.
  destruct (i_id r =? pk); subst j.
  - rewrite Hn. apply H. exact Ho.
  - apply H. exact Hin.
Qed.

Lemma references_delete_inspection_row (db : DB) (pk : Z) :
  references_ok db -> references_ok (delete_inspection_row pk db).
Proof.
  intros H i Hi. simpl in Hi. apply filter_In in Hi. apply H. tauto.
Qed.

Ltac split_guard u c db :=
  destruct (allowed_dec u (c_user_id c)) as [?Ha | [?Hr ?Ho]];
  [ rewrite (check_owner_allowed u c db) by assumption
  | rewrite (check_owner_denied u c db) by assumption ]; simpl.

Lemma handle_keeps_references (u : User) (req : Request) (db : DB) :
  inspections_reference_cars db = true ->
  inspections_reference_cars (fst (handle u req db)) = true.
Proof.
  rewrite !inspections_reference_cars_iff. intros H.
  destruct req; run_handler.
  - destruct (get_Car db car_id) as [c |]; simpl; [| exact H].
    split_guard u c db; exact H.
  - destruct (get_Car db car_id) as [c |]; simpl; [| exact H].
    split_guard u c db; [| exact H].
    apply references_update_car_row; [reflexivity | exact H].
  - destruct (get_Car db car_id) as [c |]; simpl; [| exact H].
    split_guard u c db; [| exact H].
    apply references_delete_car_row; exact H.
  - destruct (get_Car db car_id) as [c |]; simpl; [| exact H].
    split_guard u c db; exact H.
  - destruct (get_Car db car_id) as [c |] eqn:Hg; simpl; [| exact H].
    split_guard u c db; [| exact H].
    apply (references_insert_inspection db _ c); [exact Hg | exact H].
  - destruct (get_Inspection db inspection_id) as [i |] eqn:Hi; simpl;
      [| exact H].
    destruct (get_Car db (i_car_id i)) as [c |]; simpl; [| exact H].
    split_guard u c db; [| exact H].
    apply (references_update_inspection_row db _ _ i);
      [apply (get_Inspection_some db inspection_id i Hi)
      | destruct (ic_notes inspection_in); reflexivity
      | exact H].
  - destruct (get_Inspection db inspection_id) as [i |]; simpl; [| exact H].
    destruct (get_Car db (i_car_id i)) as [c |]; simpl; [| exact H].
    split_guard u c db; [| exact H].
    apply references_delete_inspection_row; exact H.
Qed.

Lemma create_car_keeps_references (u : User) (car : CarCreate) (db : DB) :
  inspections_reference_cars db = true ->
  inspections_reference_cars (fst (create_car car u db)) = true.
Proof.
  rewrite !inspections_reference_cars_iff.
  apply references_insert_car.
Qed.

(** Without the invariant the branch is live: an inspection left behind
    by a car that is gone makes the update answer "Car not found". *)
Example car_not_found_live :
  update_inspection 1 (all_good_at 5) root
    (mkDB [root] [] [mkInspection 1 7 1 good good good good None])
  = (mkDB [root] [] [mkInspection 1 7 1 good good good good None],
     inl (mkHTTPException 404 "Car not found")).
Proof. reflexivity. Qed.

(** ** The scenarios, run *)

Example profile_scenario_counts :
  option_map
    (fun '(m1, m2, m3) =>
       [ (cars_assigned m1, inspections_total m1, failed_cars m1);
         (cars_assigned m2, inspections_total m2, failed_cars m2);
         (cars_assigned m3, inspections_total m3, failed_cars m3) ])
    (match snd (profile_scenario empty_db) with
     | inr x => Some x
     | inl _ => None
     end)
  = Some [ (1, 0, 0); (1, 1, 1); (1, 2, 0) ].
Proof. reflexivity. Qed.

Example access_scenario_outcomes :
  snd (access_scenario empty_db) = inr (true, false, true).
Proof. reflexivity. Qed.

(** ** Token service *)

(** C7: a token issued for subject [s] with a positive lifetime verifies
    to [s] at the moment of issue and at every time before its expiry;
    past the expiry it fails with InvalidToken, and so does any token
    whose signature does not match its claims or whose payload does not
    decode: the failure kind is the same in all three cases. *)
Theorem token_verify_issue
    (sign : string -> fields -> string) (secret : string) (now s ttl : Z) :
  0 < ttl ->
  TokenService.verify sign secret now
    (TokenService.issue sign secret now s ttl) = inr s
  /\ (forall t, t < now + ttl ->
        TokenService.verify sign secret t
          (TokenService.issue sign secret now s ttl) = inr s)
  /\ (forall t, now + ttl < t ->
        TokenService.verify sign secret t
          (TokenService.issue sign secret now s ttl) = inl InvalidToken)
  /\ (forall t tok,
        TokenService.signature tok <> sign secret (TokenService.claims tok) ->
        TokenService.verify sign secret t tok = inl InvalidToken)
  /\ (forall t tok,
        TokenService.decode (TokenService.claims tok) = None ->
        TokenService.verify sign secret t tok = inl InvalidToken).
Proof.
  intros Httl.
  assert (Hv : forall t,
             TokenService.verify sign secret t
               (TokenService.issue sign secret now s ttl)
             = if now + ttl <? t then inl InvalidToken else inr s).
  { intros t. unfold TokenService.verify, TokenService.issue. simpl.
    rewrite String.eqb_refl. reflexivity. }
  split; [| split; [| split; [| split]]].
  - rewrite Hv. destruct (Z.ltb_spec (now + ttl) now); [lia | reflexivity].
  - intros t Ht. rewrite Hv.
    destruct (Z.ltb_spec (now + ttl) t); [lia | reflexivity].
  - intros t Ht. rewrite Hv.
    destruct (Z.ltb_spec (now + ttl) t); [reflexivity | lia].
  - intros t tok Hs. unfold TokenService.verify.
    apply String.eqb_neq in Hs. rewrite Hs. reflexivity.
  - intros t tok Hd. unfold TokenService.verify. rewrite Hd.
    destruct (String.eqb _ _); reflexivity.
Qed.

Lemma token_verify_issue_witness :
  TokenService.verify toy_sign "k" 1000
    (TokenService.issue toy_sign "k" 1000 42 3600) = inr 42
  /\ TokenService.verify toy_sign "k" 4601
       (TokenService.issue toy_sign "k" 1000 42 3600) = inl InvalidToken
  /\ TokenService.verify toy_sign "k" 1000
       (TokenService.mkToken [ ("sub", VInt 42); ("exp", VDateTime 4600) ]
                             "forged") = inl InvalidToken.
Proof.
  pose proof (token_verify_issue toy_sign "k" 1000 42 3600 eq_refl)
    as [H0 [_ [Hpast [Hsig _]]]].
  split; [exact H0 | split].
  - apply Hpast. reflexivity.
  - apply Hsig. simpl. discriminate.
Defined.

(** * Further properties of the handlers *)

(** ** The inspection listing *)

Lemma insert_date_desc_perm (i : Inspection) (l : list Inspection) :
  Permutation (insert_date_desc i l) (i :: l).
Proof.
  induction l as [| j l IH]; simpl; [apply Permutation_refl |].
  destruct (i_date j <=? i_date i); [apply Permutation_refl |].
  apply perm_trans with (j :: i :: l); [| apply perm_swap].
  apply perm_skip. exact IH.
Qed.

Lemma order_by_date_desc_perm (l : list Inspection) :
  Permutation (order_by_date_desc l) l.
Proof.
  induction l as [| i l IH]; simpl; [apply perm_nil |].
  fold (order_by_date_desc l).
  apply perm_trans with (i :: order_by_date_desc l).
  - apply insert_date_desc_perm.
  - apply perm_skip. exact IH.
Qed.

Lemma insert_date_desc_sorted (i : Inspection) (l : list Inspection) :
  StronglySorted date_desc l -> StronglySorted date_desc (insert_date_desc i l).
Proof.
  induction l as [| j l IH]; simpl; intros Hs.
  - constructor; constructor.
  - destruct (Z.leb_spec (i_date j) (i_date i)) as [Hle | Hgt].
    + constructor; [exact Hs |].
      apply StronglySorted_inv in Hs. destruct Hs as [_ Hall].
      constructor; [exact Hle |].
      apply Forall_impl with (P := date_desc j); [| exact Hall].
      unfold date_desc. intros a Ha. lia.
    + apply StronglySorted_inv in Hs. destruct Hs as [Hs Hall].
      constructor; [apply IH; exact Hs |].
      apply Forall_forall. intros a Ha.
      apply (Permutation_in _ (insert_date_desc_perm i l)) in Ha.
      destruct Ha as [<- | Ha]; [unfold date_desc; lia |].
      rewrite Forall_forall in Hall. apply Hall. exact Ha.
Qed.

Lemma order_by_date_desc_sorted (l : list Inspection) :
  StronglySorted date_desc (order_by_date_desc l).
Proof.
  induction l as [| i l IH]; simpl; [constructor |].
  apply insert_date_desc_sorted. exact IH.
Qed.

(** X1: a successful inspection listing leaves the store alone and
    returns exactly the inspections of the requested car, each once,
    ordered so that no inspection is followed by a later-dated one. *)
Theorem list_inspections_sorted_permutation
    (db db' : DB) (u : User) (car_id : Z) (l : list Inspection) :
  list_inspections car_id u db = (db', inr l) ->
  db' = db
  /\ StronglySorted date_desc l
  /\ Permutation l (filter (fun i => i_car_id i =? car_id) (inspections db))
  /\ (forall i, In i l <-> In i (inspections db) /\ i_car_id i = car_id).
Proof.
  unfold list_inspections, bind, query, or_raise, ret, raise. simpl.
  destruct (get_Car db car_id) as [c |]; simpl; [| discriminate].
  destruct (allowed_dec u (c_user_id c)) as [Ha | [Hr Ho]].
  - rewrite (check_owner_allowed u c db Ha). intros H. injection H as <- <-.
    split; [reflexivity |].
    split; [apply order_by_date_desc_sorted |].
    split; [apply order_by_date_desc_perm |].
    intros i. split; intros Hi.
    + apply (Permutation_in _ (order_by_date_desc_perm _)) in Hi.
      apply filter_In in Hi. rewrite Z.eqb_eq in Hi. exact Hi.
    + apply (Permutation_in _ (Permutation_sym (order_by_date_desc_perm _))).
      apply filter_In. rewrite Z.eqb_eq. exact Hi.
  - rewrite (check_owner_denied u c db Hr Ho). discriminate.
Qed.

Lemma list_inspections_sorted_permutation_witness :
  StronglySorted date_desc
    [ mkInspection 2 1 200 good good good good (Some "ok");
      mkInspection 1 1 100 bad good good good None ].
Proof.
  apply (list_inspections_sorted_permutation demo_db demo_db alice 1 _ eq_refl).
Defined.

(** ** Failures, reads and the caller's part in the outcome *)

Ltac resolve_target db :=
  repeat match goal with
  | |- context [get_Car db ?k] =>
      let c := fresh "c" in
      let Hg := fresh "Hg" in
      destruct (get_Car db k) as [c |] eqn:Hg; simpl
  | |- context [get_Inspection db ?k] =>
      let i := fresh "i" in
      let Hi := fresh "Hi" in
      destruct (get_Inspection db k) as [i |] eqn:Hi; simpl
  end.

(** The [HTTPException]s of the handler bodies: when one of them is
    raised the store is exactly as it was, and it is one of three: 404
    "Car not found", 404 "Inspection not found" or 403 "Not your car". *)
Theorem handle_failure_is_clean
    (db db' : DB) (u : User) (req : Request) (e : HTTPException) :
  handle u req db = (db', inl e) ->
  db' = db
  /\ (e = mkHTTPException 404 "Car not found"
      \/ e = mkHTTPException 404 "Inspection not found"
      \/ e = mkHTTPException 403 "Not your car").
Proof.
  destruct req; run_handler; resolve_target db;
    try (intros H; injection H as <- <-; auto);
    match goal with
    | c : Car |- _ =>
        destruct (allowed_dec u (c_user_id c)) as [Ha | [Hr Ho]];
        [ rewrite (check_owner_allowed u c db Ha); simpl; discriminate
        | rewrite (check_owner_denied u c db Hr Ho); simpl;
          intros H; injection H as <- <-; auto ]
    end.
Qed.

Lemma handle_failure_is_clean_witness :
  handle bob (DELETE_car 1) demo_db
  = (demo_db, inl (mkHTTPException 403 "Not your car"))
  /\ (demo_db = demo_db
      /\ (mkHTTPException 403 "Not your car"
          = mkHTTPException 404 "Car not found"
          \/ mkHTTPException 403 "Not your car"
             = mkHTTPException 404 "Inspection not found"
          \/ mkHTTPException 403 "Not your car"
             = mkHTTPException 403 "Not your car")).
Proof.
  split; [reflexivity |].
  apply (handle_failure_is_clean demo_db demo_db bob (DELETE_car 1)
           (mkHTTPException 403 "Not your car") eq_refl).
Defined.

(** X3: the read routes never write: the profile, the car listing, a
    single car and a car's inspection listing return the store they were
    given, whether they succeed or fail; the profile and the car listing
    cannot fail at all; and a car that is read back is a stored row with
    the requested key. *)
Theorem reads_never_write (db : DB) (u : User) (k : Z) :
  fst (me u db) = db
  /\ fst (list_cars u db) = db
  /\ fst (get_car k u db) = db
  /\ fst (list_inspections k u db) = db
  /\ succeeds (me u db) = true
  /\ succeeds (list_cars u db) = true
  /\ (forall c, snd (get_car k u db) = inr c ->
                In c (cars db) /\ c_id c = k /\ get_Car db k = Some c).
Proof.
  split; [destruct (me_returns db u) as [r [-> _]]; reflexivity |].
  split; [unfold list_cars, query; destruct (UserRole_eqb _ _); reflexivity |].
  split.
  { unfold get_car, bind, query, or_raise, ret, raise. simpl.
    destruct (get_Car db k) as [c |]; simpl; [| reflexivity].
    split_guard u c db; reflexivity. }
  split.
  { unfold list_inspections, bind, query, or_raise, ret, raise. simpl.
    destruct (get_Car db k) as [c |]; simpl; [| reflexivity].
    split_guard u c db; reflexivity. }
  split; [destruct (me_returns db u) as [r [-> _]]; reflexivity |].
  split; [unfold list_cars, query; destruct (UserRole_eqb _ _); reflexivity |].
  intros c0. unfold get_car, bind, query, or_raise, ret, raise. simpl.
  destruct (get_Car db k) as [c |] eqn:Hg; simpl; [| discriminate].
  split_guard u c db; [| discriminate].
  intros H. injection H as <-.
  destruct (get_Car_some db k c Hg). auto.
Qed.

(** X4: the caller's identity enters a resource route through the
    ownership check and nowhere else: two callers who are both let
    through get the same response and leave the same store. *)
Theorem handle_same_for_allowed_callers (db : DB) (u v : User) (req : Request) :
  succeeds (handle u req db) = true ->
  succeeds (handle v req db) = true ->
  handle u req db = handle v req db.
Proof.
  destruct req; run_handler; resolve_target db; try discriminate;
    match goal with
    | c : Car |- _ =>
        destruct (allowed_dec u (c_user_id c)) as [Hu | [Hur Huo]];
        [ rewrite (check_owner_allowed u c db Hu)
        | rewrite (check_owner_denied u c db Hur Huo); simpl; discriminate ];
        destruct (allowed_dec v (c_user_id c)) as [Hv | [Hvr Hvo]];
        [ rewrite (check_owner_allowed v c db Hv); reflexivity
        | rewrite (check_owner_denied v c db Hvr Hvo); simpl; discriminate ]
    end.
Qed.

Lemma handle_same_for_allowed_callers_witness :
  handle alice (PUT_inspection 1 (all_good_at 300)) demo_db
  = handle root (PUT_inspection 1 (all_good_at 300)) demo_db.
Proof.
  apply (handle_same_for_allowed_callers demo_db alice root
           (PUT_inspection 1 (all_good_at 300)) eq_refl eq_refl).
Defined.

(** ** Keyed lookups after a write *)

Lemma next_id_above (ids : list Z) (k : Z) : In k ids -> k < next_id ids.
Proof.
  unfold next_id. induction ids as [| a ids IH]; simpl; [intros [] |].
  intros [-> | Hk]; [lia |]. specialize (IH Hk). lia.
Qed.

Lemma find_key_none {A} (key : A -> Z) (k : Z) (l : list A) :
  (forall r, In r l -> key r <> k) -> find (fun r => key r =? k) l = None.
Proof.
  induction l as [| a l IH]; simpl; intros H; [reflexivity |].
  destruct (Z.eqb_spec (key a) k) as [E | _].
  - exfalso. apply (H a); auto.
  - apply IH. intros r Hr. apply H. auto.
Qed.

Lemma find_key_app {A} (key : A -> Z) (k : Z) (l : list A) (a : A) :
  find (fun r => key r =? k) (l ++ [a])
  = match find (fun r => key r =? k) l with
    | Some x => Some x
    | None => if key a =? k then Some a else None
    end.
Proof.
  induction l as [| b l IH]; simpl; [reflexivity |].
  destruct (key b =? k); [reflexivity | exact IH].
Qed.

Lemma find_key_replace {A} (key : A -> Z) (new : A) (k k' : Z) (l : list A) :
  key new = k ->
  find (fun r => key r =? k') (map (fun r => if key r =? k then new else r) l)
  = if k' =? k then option_map (fun _ => new) (find (fun r => key r =? k) l)
    else find (fun r => key r =? k') l.
Proof.
  intros Hn. destruct (Z.eqb_spec k' k) as [-> | Hk].
  - induction l as [| r l IH]; simpl; [reflexivity |].
    destruct (Z.eqb_spec (key r) k) as [Hr | Hr]; simpl.
    + rewrite Hn, Z.eqb_refl. reflexivity.
    + destruct (Z.eqb_spec (key r) k); [contradiction | exact IH].
  - induction l as [| r l IH]; simpl; [reflexivity |].
    destruct (Z.eqb_spec (key r) k) as [Hr | Hr]; simpl.
    + rewrite Hn, Hr.
      destruct (Z.eqb_spec k k') as [E | _]; [symmetry in E; contradiction |].
      exact IH.
    + destruct (key r =? k'); [reflexivity | exact IH].
Qed.

Lemma find_key_remove {A} (key : A -> Z) (k k' : Z) (l : list A) :
  find (fun r => key r =? k') (filter (fun r => negb (key r =? k)) l)
  = if k' =? k then None else find (fun r => key r =? k') l.
Proof.
  induction l as [| r l IH]; simpl; [destruct (k' =? k); reflexivity |].
  destruct (Z.eqb_spec (key r) k) as [Hr | Hr]; simpl.
  - rewrite IH. destruct (Z.eqb_spec k' k) as [-> | Hk]; [reflexivity |].
    rewrite Hr. destruct (Z.eqb_spec k k') as [E | _];
      [symmetry in E; contradiction | reflexivity].
  - destruct (Z.eqb_spec (key r) k') as [Hr' | Hr'].
    + destruct (Z.eqb_spec k' k) as [E | _]; [congruence | reflexivity].
    + exact IH.
Qed.

(** ** Creating a vehicle *)


(** ** Creating, updating and deleting inspections; deleting vehicles *)

Ltac open_handler :=
  unfold get_car, update_car, delete_car, list_inspections,
    create_inspection, update_inspection, delete_inspection,
    bind, query, or_raise, ret, raise, commit; simpl.

(** Run a handler whose result is assumed to be a success: resolve the
    lookups and the ownership check, dropping the failing branches. *)
Ltac on_success u db :=
  open_handler; resolve_target db; try discriminate;
  match goal with
  | c : Car |- _ =>
      destruct (allowed_dec u (c_user_id c)) as [?Ha | [?Hr ?Ho]];
      [ rewrite (check_owner_allowed u c db) by assumption; simpl
      | rewrite (check_owner_denied u c db) by assumption; simpl;
        discriminate ]
  end.

(** X6: a successful inspection creation stores, under a key that was
    not in use, an inspection attached to the car of the path with the
    body's date, readings and notes; nothing else in the store changes,
    the new key reads back the new inspection, every other key reads
    back as before, and the same caller's listing of that car now
    contains it. *)
Theorem create_inspection_round_trip
    (db db' : DB) (u : User) (car_id : Z) (body : InspectionCreate)
    (insp : Inspection) :
  create_inspection car_id body u db = (db', inr insp) ->
  insp = mkInspection (i_id insp) car_id (ic_date body)
                      (ic_frontLeft body) (ic_frontRight body)
                      (ic_rearLeft body) (ic_rearRight body) (ic_notes body)
  /\ get_Inspection db (i_id insp) = None
  /\ db' = mkDB (users db) (cars db) (inspections db ++ [insp])
  /\ get_Inspection db' (i_id insp) = Some insp
  /\ (forall k, k <> i_id insp -> get_Inspection db' k = get_Inspection db k)
  /\ exists l, list_inspections car_id u db' = (db', inr l) /\ In insp l.
Proof.
  revert db' insp. on_success u db. intros db' insp H. injection H as <- <-.
  simpl.
  assert (Hfresh : get_Inspection db (next_id (map i_id (inspections db)))
                   = None).
  { unfold get_Inspection. apply find_key_none. intros r Hr.
    assert (i_id r < next_id (map i_id (inspections db)))
      by (apply next_id_above, in_map, Hr).
    lia. }
  set (new := mkInspection (next_id (map i_id (inspections db))) car_id
                (ic_date body) (ic_frontLeft body) (ic_frontRight body)
                (ic_rearLeft body) (ic_rearRight body) (ic_notes body)).
  assert (Hl : forall k,
             get_Inspection (insert_inspection new db) k
             = match get_Inspection db k with
               | Some x => Some x
               | None => if i_id new =? k then Some new else None
               end)
    by (intros k; exact (find_key_app i_id k (inspections db) new)).
  split; [reflexivity |]. split; [exact Hfresh |]. split; [reflexivity |].
  split; [rewrite Hl, Hfresh, Z.eqb_refl; reflexivity |].
  split.
  - intros k Hk. rewrite Hl. destruct (get_Inspection db k); [reflexivity |].
    destruct (Z.eqb_spec (i_id new) k) as [E | _]; [| reflexivity].
    exfalso. apply Hk. symmetry. exact E.
  - eexists. split.
    + unfold list_inspections, bind, query, or_raise, ret. simpl.
      change (get_Car (insert_inspection new db) car_id)
        with (get_Car db car_id).
      rewrite Hg. simpl.
      rewrite (check_owner_allowed u c _ Ha). reflexivity.
    + apply (Permutation_in _ (Permutation_sym (order_by_date_desc_perm _))).
      apply filter_In. split.
      * apply in_or_app. right. left. reflexivity.
      * apply Z.eqb_refl.
Qed.

Lemma create_inspection_round_trip_witness :
  get_Inspection demo_db 3 = None
  /\ get_Inspection
       (insert_inspection (mkInspection 3 2 50 bad good good good None) demo_db)
       3
     = Some (mkInspection 3 2 50 bad good good good None).
Proof.
  pose proof (create_inspection_round_trip demo_db _ bob 2
                (bad_front_left_at 50) _ eq_refl) as [_ [H1 [_ [H2 _]]]].
  split; [exact H1 | exact H2].
Defined.

(** X7: a successful car deletion removes the car and, with it, every
    inspection attached to it; cars under other keys and inspections of
    other cars stay, users are untouched; afterwards reading or deleting
    that car answers 404 "Car not found" for every caller. *)
Theorem delete_car_cascades (db db' : DB) (u : User) (k : Z) (s : string) :
  delete_car k u db = (db', inr s) ->
  get_Car db' k = None
  /\ (forall i, In i (inspections db') -> i_car_id i <> k)
  /\ (forall k', k' <> k -> get_Car db' k' = get_Car db k')
  /\ (forall i, i_car_id i <> k ->
        (In i (inspections db') <-> In i (inspections db)))
  /\ users db' = users db
  /\ (forall v, get_car k v db'
                = (db', inl (mkHTTPException 404 "Car not found")))
  /\ (forall v, delete_car k v db'
                = (db', inl (mkHTTPException 404 "Car not found"))).
Proof.
  revert db' s. on_success u db. intros db' s H. injection H as <- <-.
  destruct (get_Car_some db k c Hg) as [_ ->].
  assert (Hl : forall k', get_Car (delete_car_row k db) k'
                          = if k' =? k then None else get_Car db k')
    by (intros k'; exact (find_key_remove c_id k k' (cars db))).
  assert (Hgone : get_Car (delete_car_row k db) k = None)
    by (rewrite Hl, Z.eqb_refl; reflexivity).
  split; [exact Hgone |].
  split.
  { simpl. intros i Hi. apply filter_In in Hi. destruct Hi as [_ Hi].
    apply negb_true_iff, Z.eqb_neq in Hi. exact Hi. }
  split.
  { intros k' Hk. rewrite Hl. apply Z.eqb_neq in Hk. rewrite Hk. reflexivity. }
  split.
  { simpl. intros i Hi. rewrite filter_In, negb_true_iff, Z.eqb_neq. tauto. }
  split; [reflexivity |].
  split; intros v; open_handler; rewrite Hgone; reflexivity.
Qed.

Lemma delete_car_cascades_witness :
  get_Car (delete_car_row 1 demo_db) 1 = None
  /\ inspections (delete_car_row 1 demo_db) = [].
Proof.
  split.
  - apply (delete_car_cascades demo_db _ root 1 _ eq_refl).
  - reflexivity.
Defined.

(** X8: a successful inspection deletion removes the inspection under
    that key and leaves inspections under other keys, cars and users as
    they were; afterwards deleting or updating that inspection answers
    404 "Inspection not found" for every caller. *)
Theorem delete_inspection_removes
    (db db' : DB) (u : User) (k : Z) (s : string) :
  delete_inspection k u db = (db', inr s) ->
  get_Inspection db' k = None
  /\ (forall k', k' <> k -> get_Inspection db' k' = get_Inspection db k')
  /\ cars db' = cars db
  /\ users db' = users db
  /\ (forall v, delete_inspection k v db'
                = (db', inl (mkHTTPException 404 "Inspection not found")))
  /\ (forall v body,
        update_inspection k body v db'
        = (db', inl (mkHTTPException 404 "Inspection not found"))).
Proof.
  revert db' s. on_success u db. intros db' s H. injection H as <- <-.
  destruct (get_Inspection_some db k i Hi) as [_ ->].
  assert (Hl : forall k', get_Inspection (delete_inspection_row k db) k'
                          = if k' =? k then None else get_Inspection db k')
    by (intros k'; exact (find_key_remove i_id k k' (inspections db))).
  assert (Hgone : get_Inspection (delete_inspection_row k db) k = None)
    by (rewrite Hl, Z.eqb_refl; reflexivity).
  split; [exact Hgone |].
  split.
  { intros k' Hk. rewrite Hl. apply Z.eqb_neq in Hk. rewrite Hk. reflexivity. }
  split; [reflexivity | split; [reflexivity |]].
  split; intros v; [| intros body]; open_handler; rewrite Hgone; reflexivity.
Qed.

Lemma delete_inspection_removes_witness :
  get_Inspection (delete_inspection_row 1 demo_db) 1 = None.
Proof.
  apply (delete_inspection_removes demo_db _ alice 1 _ eq_refl).
Defined.

(** ** Updating an inspection; repeating an update *)

Lemma setattr_notes (i : Inspection) (o : option string) :
  setattr_inspection i "notes" (opt_str_value o)
  = mkInspection (i_id i) (i_car_id i) (i_date i) (i_frontLeft i)
                 (i_frontRight i) (i_rearLeft i) (i_rearRight i) o.
Proof. destruct o; reflexivity. Qed.

Lemma setattrs_inspection (i : Inspection) (body : InspectionCreate) :
  setattrs setattr_inspection i (InspectionCreate_model_dump body)
  = mkInspection (i_id i) (i_car_id i) (ic_date body)
                 (ic_frontLeft body) (ic_frontRight body)
                 (ic_rearLeft body) (ic_rearRight body) (ic_notes body).
Proof.
  unfold setattrs, InspectionCreate_model_dump. simpl.
  rewrite setattr_notes. reflexivity.
Qed.

Lemma replace_twice {A} (key : A -> Z) (new : A) (k : Z) (l : list A) :
  key new = k ->
  map (fun r => if key r =? k then new else r)
      (map (fun r => if key r =? k then new else r) l)
  = map (fun r => if key r =? k then new else r) l.
Proof.
  intros Hn. rewrite map_map. apply map_ext. intros r.
  destruct (key r =? k) eqn:E; [rewrite Hn, Z.eqb_refl | rewrite E];
    reflexivity.
Qed.

(** X9: a successful inspection update overwrites the date, the four
    readings and the notes of the addressed inspection and nothing else:
    the inspection keeps its key and its car, inspections under other
    keys read back as before, cars and users are untouched, and every
    resource has the same owner afterwards. *)
Theorem update_inspection_keeps_id_and_car
    (db db' : DB) (u : User) (k : Z) (body : InspectionCreate)
    (insp' : Inspection) :
  update_inspection k body u db = (db', inr insp') ->
  exists old,
    get_Inspection db k = Some old
    /\ insp' = mkInspection (i_id old) (i_car_id old) (ic_date body)
                            (ic_frontLeft body) (ic_frontRight body)
                            (ic_rearLeft body) (ic_rearRight body)
                            (ic_notes body)
    /\ i_id insp' = k
    /\ get_Inspection db' k = Some insp'
    /\ (forall k', k' <> k -> get_Inspection db' k' = get_Inspection db k')
    /\ cars db' = cars db
    /\ users db' = users db
    /\ (forall t, resource_owner db' t = resource_owner db t).
Proof.
  revert db' insp'. on_success u db. rewrite setattr_notes. simpl.
  intros db' insp' H. injection H as <- <-.
  destruct (get_Inspection_some db k i Hi) as [_ Hid].
  set (new := mkInspection (i_id i) (i_car_id i) (ic_date body)
                (ic_frontLeft body) (ic_frontRight body)
                (ic_rearLeft body) (ic_rearRight body) (ic_notes body)).
  assert (Hl : forall k',
             get_Inspection (update_inspection_row (i_id i) new db) k'
             = if k' =? k then Some new else get_Inspection db k').
  { intros k'. unfold get_Inspection, update_inspection_row. simpl.
    rewrite (find_key_replace i_id new (i_id i) k') by reflexivity.
    rewrite Hid. fold (get_Inspection db k). rewrite Hi. reflexivity. }
  exists i. split; [reflexivity | split; [reflexivity |]].
  split; [exact Hid |].
  split; [rewrite Hl, Z.eqb_refl; reflexivity |].
  split.
  { intros k' Hk. rewrite Hl. apply Z.eqb_neq in Hk. rewrite Hk. reflexivity. }
  split; [reflexivity | split; [reflexivity |]].
  intros [k' | k']; simpl; [reflexivity |].
  rewrite Hl. destruct (Z.eqb_spec k' k) as [-> | _]; [| reflexivity].
  rewrite Hi. reflexivity.
Qed.

Lemma update_inspection_keeps_id_and_car_witness :
  exists old,
    get_Inspection demo_db 1 = Some old
    /\ i_car_id old = 1.
Proof.
  destruct (update_inspection_keeps_id_and_car demo_db _ alice 1
              (all_good_at 300) _ eq_refl) as [old [Hg [Hn _]]].
  exists old. split; [exact Hg |].
  injection Hn as _ Hc. symmetry. exact Hc.
Defined.

(** X10: updating a car is idempotent: sending the same body again, by
    the same caller, succeeds with the same response and leaves the
    store as the first update left it. *)
Theorem update_car_idempotent
    (db db1 : DB) (u : User) (k : Z) (body : CarCreate) (c1 : Car) :
  update_car k body u db = (db1, inr c1) ->
  update_car k body u db1 = (db1, inr c1).
Proof.
  revert db1 c1. on_success u db. intros db1 c1 H. injection H as <- <-.
  destruct (get_Car_some db k c Hg) as [_ Hid].
  set (new := mkCar (c_id c) (c_user_id c) (cc_make body) (cc_model body)
                    (cc_year body) (cc_plate body)).
  assert (Hl : get_Car (update_car_row (c_id c) new db) k = Some new).
  { rewrite get_Car_update_row by reflexivity.
    rewrite Hid, Z.eqb_refl, Hg. reflexivity. }
  open_handler. rewrite Hl. simpl.
  rewrite (check_owner_allowed u new _ Ha). simpl.
  fold new. f_equal. unfold update_car_row. simpl. f_equal.
  exact (replace_twice c_id new (c_id c) (cars db) eq_refl).
Qed.

Lemma update_car_idempotent_witness :
  update_car 2 (mkCarCreate "Opel" "Corsa" 2016 "WA 3") bob
    (update_car_row 2 (mkCar 2 2 "Opel" "Corsa" 2016 "WA 3") demo_db)
  = (update_car_row 2 (mkCar 2 2 "Opel" "Corsa" 2016 "WA 3") demo_db,
     inr (mkCar 2 2 "Opel" "Corsa" 2016 "WA 3")).
Proof.
  apply (update_car_idempotent demo_db
           (update_car_row 2 (mkCar 2 2 "Opel" "Corsa" 2016 "WA 3") demo_db)
           bob 2 (mkCarCreate "Opel" "Corsa" 2016 "WA 3")
           (mkCar 2 2 "Opel" "Corsa" 2016 "WA 3") eq_refl).
Defined.

(** X11: updating an inspection is idempotent in the same way. *)
Theorem update_inspection_idempotent
    (db db1 : DB) (u : User) (k : Z) (body : InspectionCreate)
    (i1 : Inspection) :
  update_inspection k body u db = (db1, inr i1) ->
  update_inspection k body u db1 = (db1, inr i1).
Proof.
  revert db1 i1. on_success u db. rewrite setattr_notes. simpl.
  intros db1 i1 H. injection H as <- <-.
  destruct (get_Inspection_some db k i Hi) as [_ Hid].
  set (new := mkInspection (i_id i) (i_car_id i) (ic_date body)
                (ic_frontLeft body) (ic_frontRight body)
                (ic_rearLeft body) (ic_rearRight body) (ic_notes body)).
  assert (Hl : get_Inspection (update_inspection_row (i_id i) new db) k
               = Some new).
  { unfold get_Inspection, update_inspection_row. simpl.
    rewrite (find_key_replace i_id new (i_id i) k) by reflexivity.
    rewrite Hid, Z.eqb_refl. fold (get_Inspection db k). rewrite Hi.
    reflexivity. }
  open_handler. rewrite Hl. simpl.
  change (get_Car (update_inspection_row (i_id i) new db) (i_car_id i))
    with (get_Car db (i_car_id i)).
  rewrite Hg. simpl.
  rewrite (check_owner_allowed u c _ Ha). simpl.
  rewrite setattr_notes. simpl.
  fold new. f_equal. unfold update_inspection_row. simpl. f_equal.
  exact (replace_twice i_id new (i_id i) (inspections db) eq_refl).
Qed.

Lemma update_inspection_idempotent_witness :
  succeeds (update_inspection 1 (all_good_at 300) alice
              (update_inspection_row 1
                 (mkInspection 1 1 300 good good good good None) demo_db))
  = true.
Proof.
  rewrite (update_inspection_idempotent demo_db
             (update_inspection_row 1
                (mkInspection 1 1 300 good good good good None) demo_db)
             alice 1 (all_good_at 300)
             (mkInspection 1 1 300 good good good good None) eq_refl).
  reflexivity.
Defined.

(** ** Key and email uniqueness are kept by every write *)

Lemma distinct_NoDup (l : list Z) : distinct l = true <-> NoDup l.
Proof.
  induction l as [| k l IH]; simpl.
  - split; [constructor | reflexivity].
  - rewrite andb_true_iff, negb_true_iff, IH, NoDup_cons_iff.
    assert (Hk : existsb (Z.eqb k) l = false <-> ~ In k l).
    { rewrite <- not_true_iff_false, existsb_exists. split; intros H.
      - intros Hin. apply H. exists k. rewrite Z.eqb_refl. auto.
      - intros [x [Hx He]]. apply Z.eqb_eq in He. subst x. auto. }
    rewrite Hk. reflexivity.
Qed.

Lemma distinct_str_NoDup (l : list string) : distinct_str l = true <-> NoDup l.
Proof.
  induction l as [| k l IH]; simpl.
  - split; [constructor | reflexivity].
  - rewrite andb_true_iff, negb_true_iff, IH, NoDup_cons_iff.
    assert (Hk : existsb (String.eqb k) l = false <-> ~ In k l).
    { rewrite <- not_true_iff_false, existsb_exists. split; intros H.
      - intros Hin. apply H. exists k. rewrite String.eqb_refl. auto.
      - intros [x [Hx He]]. apply String.eqb_eq in He. subst x. auto. }
    rewrite Hk. reflexivity.
Qed.

Lemma primary_keys_unique_iff (db : DB) :
  primary_keys_unique db = true <-> keys_NoDup db.
Proof.
  unfold primary_keys_unique, keys_NoDup.
  rewrite !andb_true_iff, !distinct_NoDup. tauto.
Qed.

Lemma NoDup_key_filter {A} (key : A -> Z) (q : A -> bool) (l : list A) :
  NoDup (map key l) -> NoDup (map key (filter q l)).
Proof.
  induction l as [| a l IH]; simpl; intros H; [constructor |].
  apply NoDup_cons_iff in H. destruct H as [Hn H].
  destruct (q a); simpl; [| apply IH; exact H].
  constructor; [| apply IH; exact H].
  intros Hin. apply Hn. apply in_map_iff in Hin.
  destruct Hin as [x [Hx Hin]]. apply filter_In in Hin.
  apply in_map_iff. exists x. tauto.
Qed.

Lemma map_key_replace {A} (key : A -> Z) (new : A) (k : Z) (l : list A) :
  key new = k ->
  map key (map (fun r => if key r =? k then new else r) l) = map key l.
Proof.
  intros Hn. rewrite map_map. apply map_ext. intros r.
  destruct (Z.eqb_spec (key r) k); congruence.
Qed.

Lemma NoDup_next_id (ids : list Z) :
  NoDup ids -> NoDup (ids ++ [next_id ids]).
Proof.
  intros H. apply NoDup_app; [exact H | repeat constructor; intros [] |].
  intros a Ha [<- | []]. apply next_id_above in Ha. lia.
Qed.

(** X12: every write keeps the primary keys of the three tables free of
    duplicates: the seven resource routes, car creation and registration
    each return a store with unique keys when given one. *)
Theorem writes_keep_primary_keys
    (db : DB) (u : User) (req : Request) (car : CarCreate)
    (hash_password : string -> string) (body : UserCreate) :
  primary_keys_unique db = true ->
  primary_keys_unique (fst (handle u req db)) = true
  /\ primary_keys_unique (fst (create_car car u db)) = true
  /\ primary_keys_unique (fst (register hash_password body db)) = true.
Proof.
  rewrite !primary_keys_unique_iff. intros [Hu [Hc Hi]].
  split; [| split].
  - destruct req; run_handler; resolve_target db;
      try (split; [| split]; assumption);
      match goal with
      | c : Car |- _ =>
          destruct (allowed_dec u (c_user_id c)) as [Ha | [Hr Ho]];
          [ rewrite (check_owner_allowed u c db Ha); simpl
          | rewrite (check_owner_denied u c db Hr Ho); simpl;
            split; [| split]; assumption ]
      end;
      (split; [exact Hu | split]); simpl; try assumption.
    + rewrite (map_key_replace c_id) by reflexivity. exact Hc.
    + apply NoDup_key_filter. exact Hc.
    + apply NoDup_key_filter. exact Hi.
    + rewrite map_app. apply NoDup_next_id. exact Hi.
    + rewrite setattr_notes.
      rewrite (map_key_replace i_id) by reflexivity. exact Hi.
    + apply NoDup_key_filter. exact Hi.
  - unfold create_car, bind, query, commit, ret. simpl.
    split; [exact Hu | split; [| exact Hi]]. simpl.
    rewrite map_app. apply NoDup_next_id. exact Hc.
  - unfold register, bind, query, commit, ret, raise. simpl.
    destruct (first _); simpl; (split; [| split; assumption]);
      [exact Hu |].
    simpl. rewrite map_app. apply NoDup_next_id. exact Hu.
Qed.

Lemma writes_keep_primary_keys_witness :
  primary_keys_unique demo_db = true
  /\ primary_keys_unique
       (fst (handle alice (POST_inspection 1 (all_good_at 300)) demo_db))
     = true.
Proof.
  split; [reflexivity |].
  apply (writes_keep_primary_keys demo_db alice
           (POST_inspection 1 (all_good_at 300))
           (mkCarCreate "a" "b" 1 "c") toy_hash
           (mkUserCreate "n" "e" "p" None "w") eq_refl).
Defined.

(** X13: registration keeps emails unique: given a store in which no two
    users share an email, the store it returns has that property too,
    whether the registration succeeded or was refused. *)
Theorem register_keeps_emails_unique
    (hash_password : string -> string) (db : DB) (body : UserCreate) :
  emails_unique db = true ->
  emails_unique (fst (register hash_password body db)) = true.
Proof.
  unfold emails_unique. rewrite !distinct_str_NoDup. intros H.
  unfold register, bind, query, commit, ret, raise. simpl.
  destruct (first (filter (fun u => String.eqb (u_email u) (uc_email body))
                          (users db))) as [x |] eqn:E; simpl; [exact H |].
  rewrite map_app. simpl.
  apply NoDup_app; [exact H | repeat constructor; intros [] |].
  intros a Ha [<- | []]. apply in_map_iff in Ha.
  destruct Ha as [x [Hx Hin]].
  destruct (first_filter_some
              (fun u => String.eqb (u_email u) (uc_email body))
              (users db) x Hin) as [y Hy].
  - apply String.eqb_eq. exact Hx.
  - rewrite Hy in E. discriminate.
Qed.

Lemma register_keeps_emails_unique_witness :
  emails_unique demo_db = true
  /\ emails_unique
       (fst (register toy_hash (mkUserCreate "Cy" "c@x.com" "4" None "pw")
                      demo_db)) = true.
Proof.
  split; [reflexivity |].
  apply (register_keeps_emails_unique toy_hash demo_db _ eq_refl).
Defined.

(** X14: after a registration has succeeded, every further registration
    with the same email is refused with 400 "Email already in use" and
    leaves the store as the first one left it, whatever the other fields
    of the second request are. *)
Theorem register_twice_refused
    (hash_password : string -> string) (db db1 : DB)
    (body body' : UserCreate) (u1 : User) :
  register hash_password body db = (db1, inr u1) ->
  uc_email body' = uc_email body ->
  register hash_password body' db1
  = (db1, inl (mkHTTPException 400 "Email already in use")).
Proof.
  unfold register at 1. unfold bind, query, commit, ret, raise. simpl.
  destruct (first (filter (fun u => String.eqb (u_email u) (uc_email body))
                          (users db))); simpl; [discriminate |].
  intros H He. injection H as <- <-.
  apply register_duplicate. eexists. split.
  - simpl. apply in_or_app. right. left. reflexivity.
  - simpl. symmetry. exact He.
Qed.

Lemma register_twice_refused_witness :
  register toy_hash (mkUserCreate "Other" "c@x.com" "5" (Some admin) "x")
    (insert_user (mkUser 4 "Cy" "c@x.com" "4" "h-pw" user) demo_db)
  = (insert_user (mkUser 4 "Cy" "c@x.com" "4" "h-pw" user) demo_db,
     inl (mkHTTPException 400 "Email already in use")).
Proof.
  apply (register_twice_refused toy_hash demo_db
           (insert_user (mkUser 4 "Cy" "c@x.com" "4" "h-pw" user) demo_db)
           (mkUserCreate "Cy" "c@x.com" "4" None "pw")
           (mkUserCreate "Other" "c@x.com" "5" (Some admin) "x")
           (mkUser 4 "Cy" "c@x.com" "4" "h-pw" user) eq_refl eq_refl).
Defined.

(** ** Bounds on the profile's counters; separation of listings *)

Lemma len_nonneg {A} (l : list A) : 0 <= len l.
Proof. unfold len. lia. Qed.

Lemma len_filter_le {A} (f : A -> bool) (l : list A) :
  len (filter f l) <= len l.
Proof. unfold len. apply Nat2Z.inj_le, filter_length_le. Qed.

Lemma len_filter_split {A} (p q : A -> bool) (l : list A) :
  (forall x, In x l -> p x = true -> q x = false) ->
  len (filter (fun x => p x || q x) l) = len (filter p l) + len (filter q l).
Proof.
  induction l as [| a l IH]; intros H; [reflexivity |].
  assert (IH' := IH (fun x Hx => H x (or_intror Hx))).
  simpl filter. destruct (p a) eqn:Ep.
  - rewrite (H a (or_introl eq_refl) Ep). simpl orb. cbv iota.
    rewrite !len_cons, IH'. lia.
  - simpl orb. destruct (q a); rewrite ?len_cons, IH'; lia.
Qed.

Lemma failing_has_inspection (db : DB) (c : Car) :
  failing_spec db c = true ->
  1 <= len (filter (fun i => i_car_id i =? c_id c) (inspections db)).
Proof.
  unfold failing_spec, inspections_of.
  destruct (filter (fun i => i_car_id i =? c_id c) (inspections db)) as [| a l].
  - simpl. discriminate.
  - intros _. rewrite len_cons. pose proof (len_nonneg l). lia.
Qed.

Lemma failing_le_inspections (db : DB) (l : list Car) :
  NoDup (map c_id l) ->
  len (filter (failing_spec db) l)
  <= len (filter (fun i => existsb (Z.eqb (i_car_id i)) (map c_id l))
                 (inspections db)).
Proof.
  induction l as [| c l IH]; simpl; intros Hnd.
  - pose proof (len_nonneg (filter (fun _ : Inspection => false)
                                   (inspections db))).
    unfold len at 1. simpl. lia.
  - apply NoDup_cons_iff in Hnd. destruct Hnd as [Hn Hnd].
    rewrite (len_filter_split (fun i => i_car_id i =? c_id c)
               (fun i => existsb (Z.eqb (i_car_id i)) (map c_id l))).
    + specialize (IH Hnd).
      pose proof (len_nonneg (filter (fun i => i_car_id i =? c_id c)
                                     (inspections db))).
      destruct (failing_spec db c) eqn:Ef; [| lia].
      apply failing_has_inspection in Ef. rewrite len_cons. lia.
    + intros i _ Hp. apply Z.eqb_eq in Hp. apply not_true_is_false.
      intros Hq. apply existsb_exists in Hq. destruct Hq as [k [Hk He]].
      apply Z.eqb_eq in He. apply Hn. congruence.
Qed.

(** X15: the profile's counters are bounded by one another and by the
    tables: [failed_cars] lies between 0 and [cars_assigned], which is at
    most the number of stored cars; [inspections_total] lies between 0
    and the number of stored inspections; for a caller who is not an
    admin [cars_assigned] is the length of the caller's car listing; and
    when car keys are unique, [failed_cars] is at most
    [inspections_total]. *)
Theorem profile_counters_bounded (db : DB) (u : User) :
  exists r,
    me u db = (db, inr r)
    /\ 0 <= failed_cars r <= cars_assigned r
    /\ cars_assigned r <= len (cars db)
    /\ 0 <= inspections_total r <= len (inspections db)
    /\ (forall l, u_role u = user -> list_cars u db = (db, inr l) ->
                  cars_assigned r = len l)
    /\ (distinct (map c_id (cars db)) = true ->
        failed_cars r <= inspections_total r).
Proof.
  destruct (me_returns db u) as [r [Hr [Ha [Hf Ht]]]].
  exists r. split; [exact Hr |].
  rewrite failed_cars_loop in Hf. simpl in Hf.
  split.
  { rewrite Hf, Ha. split; [apply len_nonneg | apply len_filter_le]. }
  split; [rewrite Ha; apply len_filter_le |].
  split.
  { rewrite Ht. destruct (filter (owned_by u) (cars db)).
    - split; [lia | apply len_nonneg].
    - split; [apply len_nonneg | apply len_filter_le]. }
  split.
  { intros l Hu. unfold list_cars, query. rewrite Hu. simpl.
    intros H. injection H as <-. exact Ha. }
  intros Hd. apply distinct_NoDup in Hd.
  rewrite Hf, Ht.
  pose proof (failing_le_inspections db (filter (owned_by u) (cars db))
                (NoDup_key_filter c_id (owned_by u) (cars db) Hd)) as Hle.
  destruct (filter (owned_by u) (cars db)); [| exact Hle].
  unfold len. simpl. lia.
Qed.

Lemma profile_counters_bounded_witness :
  exists r, me alice demo_db = (demo_db, inr r)
            /\ failed_cars r <= inspections_total r.
Proof.
  destruct (profile_counters_bounded demo_db alice)
    as [r [Hr [_ [_ [_ [_ Hle]]]]]].
  exists r. split; [exact Hr | apply Hle; reflexivity].
Defined.

(** Two rows under one car key: the bound of [failed_cars] by
    [inspections_total] needs the keys to be unique. *)
Example failed_cars_exceeds_total_with_duplicate_keys :
  option_map (fun r => (failed_cars r, inspections_total r))
    (match snd (me alice
                  (mkDB [alice]
                        [ mkCar 1 1 "a" "b" 1 "c"; mkCar 1 1 "d" "e" 2 "f" ]
                        [ mkInspection 1 1 10 bad good good good None ])) with
     | inr r => Some r
     | inl _ => None
     end)
  = Some (2, 1).
Proof. reflexivity. Qed.

(** X16: the car listings of two users who are not admins and have
    different ids share no car, and every car in such a listing is a
    stored car owned by the lister. *)
Theorem listings_are_separate (db : DB) (u v : User) (lu lv : list Car) :
  u_role u = user -> u_role v = user -> u_id u <> u_id v ->
  list_cars u db = (db, inr lu) ->
  list_cars v db = (db, inr lv) ->
  (forall c, In c lu -> In c (cars db) /\ c_user_id c = u_id u)
  /\ (forall c, In c lu -> ~ In c lv).
Proof.
  unfold list_cars, query. intros -> -> Hne Hu Hv. simpl in *.
  injection Hu as <-. injection Hv as <-.
  split.
  - intros c Hc. apply filter_In in Hc. rewrite Z.eqb_eq in Hc. exact Hc.
  - intros c Hc Hc'. apply filter_In in Hc. apply filter_In in Hc'.
    rewrite Z.eqb_eq in Hc, Hc'. destruct Hc, Hc'. congruence.
Qed.

Lemma listings_are_separate_witness :
  ~ In (mkCar 1 1 "Fiat" "Panda" 2012 "KR 1")
       [mkCar 2 2 "Opel" "Astra" 2015 "WA 2"].
Proof.
  apply (proj2 (listings_are_separate demo_db alice bob
                  [mkCar 1 1 "Fiat" "Panda" 2012 "KR 1"]
                  [mkCar 2 2 "Opel" "Astra" 2015 "WA 2"]
                  eq_refl eq_refl ltac:(simpl; discriminate)
                  eq_refl eq_refl)).
  simpl. auto.
Defined.

(** ** What a user who is not an admin cannot touch *)

Lemma find_filter_keep {A} (p q : A -> bool) (l : list A) (x : A) :
  find p l = Some x -> q x = true -> find p (filter q l) = Some x.
Proof.
  induction l as [| a l IH]; simpl; intros Hf Hq; [discriminate |].
  destruct (p a) eqn:Ep.
  - injection Hf as ->. rewrite Hq. simpl. rewrite Ep. reflexivity.
  - destruct (q a); simpl; [rewrite Ep |]; apply IH; assumption.
Qed.

Lemma allowed_user_is_owner (v : User) (owner : Z) :
  u_role v = user -> u_role v = admin \/ u_id v = owner -> owner = u_id v.
Proof. intros Hr [Ha | Ho]; [congruence | auto]. Qed.

(** X17: a successful request of a caller who is not an admin leaves
    every resource of the other users as it was: the user table is the
    same, every car owned by someone else reads back unchanged under its
    key, and so does every inspection whose car is owned by someone
    else. *)
Theorem other_users_resources_untouched
    (db db' : DB) (v : User) (req : Request) (resp : Response) :
  u_role v = user ->
  handle v req db = (db', inr resp) ->
  users db' = users db
  /\ (forall k c, get_Car db k = Some c -> c_user_id c <> u_id v ->
                  get_Car db' k = Some c)
  /\ (forall k i c,
        get_Inspection db k = Some i ->
        get_Car db (i_car_id i) = Some c -> c_user_id c <> u_id v ->
        get_Inspection db' k = Some i).
Proof.
  intros Hv. revert db' resp.
  destruct req; run_handler; resolve_target db; try discriminate;
    match goal with
    | c : Car |- _ =>
        destruct (allowed_dec v (c_user_id c)) as [Ha | [Hr Ho]];
        [ rewrite (check_owner_allowed v c db Ha); simpl;
          apply (allowed_user_is_owner v _ Hv) in Ha
        | rewrite (check_owner_denied v c db Hr Ho); simpl; discriminate ]
    end;
    intros db' resp H; injection H as <- _;
    (split; [reflexivity |]).
  - (* GET /cars/{car_id} *)
    split; [intros k c' Hc' _ | intros k i c' Hi' _ _]; assumption.
  - (* PUT /cars/{car_id} *)
    destruct (get_Car_some db car_id c Hg) as [_ Hid].
    split; [| intros k i c' Hi' _ _; exact Hi'].
    intros k c' Hc' Hne. rewrite get_Car_update_row by reflexivity.
    rewrite Hid. destruct (Z.eqb_spec k car_id) as [-> | _]; [| exact Hc'].
    congruence.
  - (* DELETE /cars/{car_id} *)
    destruct (get_Car_some db car_id c Hg) as [_ Hid]. rewrite Hid.
    split.
    + intros k c' Hc' Hne. unfold get_Car, delete_car_row. simpl.
      rewrite (find_key_remove c_id car_id k (cars db)).
      destruct (Z.eqb_spec k car_id) as [-> | _]; [congruence | exact Hc'].
    + intros k i c' Hi' Hc' Hne. unfold get_Inspection, delete_car_row.
      simpl. apply find_filter_keep; [exact Hi' |].
      apply negb_true_iff, Z.eqb_neq. intros E. rewrite E in Hc'. congruence.
  - (* GET /inspections/{car_id} *)
    split; [intros k c' Hc' _ | intros k i c' Hi' _ _]; assumption.
  - (* POST /inspections/{car_id} *)
    split; [intros k c' Hc' _; exact Hc' |].
    intros k i c' Hi' _ _. unfold get_Inspection, insert_inspection. simpl.
    rewrite (find_key_app i_id k (inspections db)).
    fold (get_Inspection db k). rewrite Hi'. reflexivity.
  - (* PUT /inspections/{inspection_id} *)
    destruct (get_Inspection_some db inspection_id i Hi) as [_ Hid].
    split; [intros k c' Hc' _; exact Hc' |].
    intros k i' c' Hi' Hc' Hne. rewrite setattr_notes.
    unfold get_Inspection, update_inspection_row. simpl.
    rewrite (find_key_replace i_id _ (i_id i) k) by reflexivity.
    rewrite Hid. destruct (Z.eqb_spec k inspection_id) as [-> | _];
      [| exact Hi'].
    congruence.
  - (* DELETE /inspections/{inspection_id} *)
    destruct (get_Inspection_some db inspection_id i Hi) as [_ Hid].
    rewrite Hid.
    split; [intros k c' Hc' _; exact Hc' |].
    intros k i' c' Hi' Hc' Hne.
    unfold get_Inspection, delete_inspection_row. simpl.
    rewrite (find_key_remove i_id inspection_id k (inspections db)).
    destruct (Z.eqb_spec k inspection_id) as [-> | _]; [| exact Hi'].
    congruence.
Qed.

Lemma other_users_resources_untouched_witness :
  get_Car (fst (handle bob (DELETE_car 2) demo_db)) 1
  = Some (mkCar 1 1 "Fiat" "Panda" 2012 "KR 1").
Proof.
  apply (proj1 (proj2 (other_users_resources_untouched
                         demo_db (delete_car_row 2 demo_db) bob (DELETE_car 2)
                         (StatusOut "deleted") eq_refl eq_refl))).
  - reflexivity.
  - simpl. discriminate.
Defined.

(** ** The profile depends on the caller's own rows only *)

Lemma NoDup_key_inj {A} (key : A -> Z) (l : list A) (a b : A) :
  NoDup (map key l) -> In a l -> In b l -> key a = key b -> a = b.
Proof.
  induction l as [| x l IH]; simpl; intros Hnd Ha Hb He; [destruct Ha |].
  apply NoDup_cons_iff in Hnd. destruct Hnd as [Hn Hnd].
  destruct Ha as [-> | Ha], Hb as [-> | Hb].
  - reflexivity.
  - exfalso. apply Hn. rewrite He. apply in_map. exact Hb.
  - exfalso. apply Hn. rewrite <- He. apply in_map. exact Ha.
  - apply IH; assumption.
Qed.

Lemma filter_map_frame {A} (p : A -> bool) (f : A -> A) (l : list A) :
  (forall r, In r l -> f r = r \/ (p r = false /\ p (f r) = false)) ->
  filter p (map f l) = filter p l.
Proof.
  induction l as [| a l IH]; simpl; intros H; [reflexivity |].
  rewrite IH by (intros r Hr; apply H; auto).
  destruct (H a (or_introl eq_refl)) as [-> | [-> ->]]; reflexivity.
Qed.

Lemma filter_filter_frame {A} (p q : A -> bool) (l : list A) :
  (forall r, In r l -> p r = true -> q r = true) ->
  filter p (filter q l) = filter p l.
Proof.
  induction l as [| a l IH]; simpl; intros H; [reflexivity |].
  specialize (IH (fun r Hr => H r (or_intror Hr))).
  destruct (q a) eqn:Eq; simpl; rewrite IH; [reflexivity |].
  destruct (p a) eqn:Ep; [| reflexivity].
  rewrite (H a (or_introl eq_refl) Ep) in Eq. discriminate.
Qed.

Lemma me_depends_on_own_rows (db1 db2 : DB) (u : User) :
  filter (owned_by u) (cars db1) = filter (owned_by u) (cars db2) ->
  filter (fun i => existsb (Z.eqb (i_car_id i))
                           (map c_id (filter (owned_by u) (cars db2))))
         (inspections db1)
  = filter (fun i => existsb (Z.eqb (i_car_id i))
                             (map c_id (filter (owned_by u) (cars db2))))
           (inspections db2) ->
  snd (me u db1) = snd (me u db2).
Proof.
  intros Hc Hi. unfold me, bind, query, ret. simpl.
  change (fun c => c_user_id c =? u_id u) with (owned_by u).
  rewrite Hc.
  assert (Hf : fold_left (failed_cars_step db1)
                         (filter (owned_by u) (cars db2)) 0
               = fold_left (failed_cars_step db2)
                           (filter (owned_by u) (cars db2)) 0).
  { rewrite !failed_cars_loop. do 2 f_equal. apply filter_ext_in.
    intros c Hin. unfold failing_spec, inspections_of.
    assert (Hsub : forall l,
               filter (fun i => i_car_id i =? c_id c)
                 (filter (fun i => existsb (Z.eqb (i_car_id i))
                            (map c_id (filter (owned_by u) (cars db2)))) l)
               = filter (fun i => i_car_id i =? c_id c) l).
    { intros l. apply filter_filter_frame. intros r _ Hr.
      apply existsb_exists. exists (c_id c). split; [| exact Hr].
      apply in_map. exact Hin. }
    rewrite <- (Hsub (inspections db1)), <- (Hsub (inspections db2)), Hi.
    reflexivity. }
  destruct (filter (owned_by u) (cars db2)) as [| c cs] eqn:E; simpl.
  - reflexivity.
  - simpl in Hf. rewrite Hf. simpl in Hi. rewrite Hi. reflexivity.
Qed.

Lemma owned_inspection_not_of (db : DB) (u : User) (c0 : Car) (i : Inspection) :
  NoDup (map c_id (cars db)) ->
  In c0 (cars db) -> owned_by u c0 = false ->
  existsb (Z.eqb (i_car_id i)) (map c_id (filter (owned_by u) (cars db)))
  = true ->
  i_car_id i <> c_id c0.
Proof.
  intros Hnd Hin Hown Hex E. apply existsb_exists in Hex.
  destruct Hex as [k [Hk He]]. apply Z.eqb_eq in He. subst k.
  apply in_map_iff in Hk. destruct Hk as [r [Hr Hrin]].
  apply filter_In in Hrin. destruct Hrin as [Hrin Hro].
  assert (r = c0) by (apply (NoDup_key_inj c_id (cars db)); congruence).
  subst r. congruence.
Qed.

Section ProfileFrame.

Variables (db : DB) (u : User) (c0 : Car).
Hypothesis car_keys : NoDup (map c_id (cars db)).
Hypothesis c0_stored : In c0 (cars db).
Hypothesis c0_foreign : owned_by u c0 = false.

Lemma me_frame_update_car (new : Car) :
  c_user_id new = c_user_id c0 ->
  snd (me u (update_car_row (c_id c0) new db)) = snd (me u db).
Proof.
  intros Hn. apply me_depends_on_own_rows; [| reflexivity].
  simpl. apply filter_map_frame. intros r Hr.
  destruct (Z.eqb_spec (c_id r) (c_id c0)) as [E | _]; [right | left; auto].
  assert (r = c0) by (apply (NoDup_key_inj c_id (cars db)); assumption).
  subst r. split; [exact c0_foreign |].
  unfold owned_by in *. rewrite Hn. exact c0_foreign.
Qed.

Lemma me_frame_delete_car :
  snd (me u (delete_car_row (c_id c0) db)) = snd (me u db).
Proof.
  apply me_depends_on_own_rows; simpl.
  - apply filter_filter_frame. intros r Hr Ho.
    apply negb_true_iff, Z.eqb_neq. intros E.
    assert (r = c0) by (apply (NoDup_key_inj c_id (cars db)); assumption).
    subst r. congruence.
  - apply filter_filter_frame. intros i _ Hi.
    apply negb_true_iff, Z.eqb_neq.
    apply (owned_inspection_not_of db u c0 i); assumption.
Qed.

Lemma me_frame_insert_inspection (i : Inspection) :
  i_car_id i = c_id c0 ->
  snd (me u (insert_inspection i db)) = snd (me u db).
Proof.
  intros Hi. apply me_depends_on_own_rows; [reflexivity |].
  simpl. rewrite filter_app. simpl.
  destruct (existsb (Z.eqb (i_car_id i))
              (map c_id (filter (owned_by u) (cars db)))) eqn:E.
  - exfalso. apply (owned_inspection_not_of db u c0 i); assumption.
  - apply app_nil_r.
Qed.

Lemma me_frame_update_inspection (old new : Inspection) :
  NoDup (map i_id (inspections db)) ->
  In old (inspections db) ->
  i_car_id old = c_id c0 -> i_car_id new = c_id c0 ->
  snd (me u (update_inspection_row (i_id old) new db)) = snd (me u db).
Proof.
  intros Hk Hin Ho Hn. apply me_depends_on_own_rows; [reflexivity |].
  simpl. apply filter_map_frame. intros r Hr.
  destruct (Z.eqb_spec (i_id r) (i_id old)) as [E | _]; [right | left; auto].
  assert (r = old) by (apply (NoDup_key_inj i_id (inspections db)); assumption).
  subst r. split; apply not_true_is_false; intros Hex;
    [apply (owned_inspection_not_of db u c0 old)
    | apply (owned_inspection_not_of db u c0 new)]; assumption.
Qed.

Lemma me_frame_delete_inspection (old : Inspection) :
  NoDup (map i_id (inspections db)) ->
  In old (inspections db) ->
  i_car_id old = c_id c0 ->
  snd (me u (delete_inspection_row (i_id old) db)) = snd (me u db).
Proof.
  intros Hk Hin Ho. apply me_depends_on_own_rows; [reflexivity |].
  simpl. apply filter_filter_frame. intros r Hr Hex.
  apply negb_true_iff, Z.eqb_neq. intros E.
  assert (r = old) by (apply (NoDup_key_inj i_id (inspections db)); assumption).
  subst r. apply (owned_inspection_not_of db u c0 old); assumption.
Qed.

End ProfileFrame.

(** X18: in a store with unique primary keys, a successful request of a
    caller who is not an admin does not change the profile of any other
    user: that user's [cars_assigned], [inspections_total] and
    [failed_cars] are the same before and after. *)
Theorem other_users_profile_untouched
    (db db' : DB) (u v : User) (req : Request) (resp : Response) :
  primary_keys_unique db = true ->
  u_role v = user ->
  u_id v <> u_id u ->
  handle v req db = (db', inr resp) ->
  snd (me u db') = snd (me u db).
Proof.
  rewrite primary_keys_unique_iff. intros [_ [Hck Hik]] Hv Hne.
  revert db' resp.
  destruct req; run_handler; resolve_target db; try discriminate;
    match goal with
    | c : Car |- _ =>
        destruct (allowed_dec v (c_user_id c)) as [Ha | [Hr Ho]];
        [ rewrite (check_owner_allowed v c db Ha); simpl;
          apply (allowed_user_is_owner v _ Hv) in Ha;
          assert (Hforeign : owned_by u c = false)
            by (unfold owned_by; apply Z.eqb_neq; congruence)
        | rewrite (check_owner_denied v c db Hr Ho); simpl; discriminate ]
    end;
    intros db' resp H; injection H as <- _; try reflexivity;
    match goal with
    | Hg : get_Car db _ = Some ?c |- _ =>
        destruct (get_Car_some db _ c Hg) as [Hcin Hcid]
    end.
  - apply me_frame_update_car; auto.
  - apply me_frame_delete_car; auto.
  - apply (me_frame_insert_inspection db u c); auto.
  - destruct (get_Inspection_some db inspection_id i Hi) as [Hiin _].
    rewrite setattr_notes.
    apply (me_frame_update_inspection db u c); auto.
  - destruct (get_Inspection_some db inspection_id i Hi) as [Hiin _].
    apply (me_frame_delete_inspection db u c); auto.
Qed.

Lemma other_users_profile_untouched_witness :
  snd (me alice (delete_car_row 2 demo_db)) = snd (me alice demo_db).
Proof.
  apply (other_users_profile_untouched demo_db (delete_car_row 2 demo_db)
           alice bob (DELETE_car 2) (StatusOut "deleted") eq_refl eq_refl).
  - simpl. discriminate.
  - reflexivity.
Defined.

(** An admin's request is not so confined: deleting Alice's car changes
    Alice's profile. *)
Example admin_changes_profile :
  snd (me alice (fst (handle root (DELETE_car 1) demo_db)))
  <> snd (me alice demo_db).
Proof. simpl. discriminate. Qed.

(** ** How creations move the profile *)

Lemma len_app_one {A} (l : list A) (a : A) : len (l ++ [a]) = len l + 1.
Proof. unfold len. rewrite length_app. simpl. lia. Qed.

Lemma no_inspection_of_next_car (db : DB) (i : Inspection) :
  inspections_reference_cars db = true ->
  In i (inspections db) ->
  (i_car_id i =? next_id (map c_id (cars db))) = false.
Proof.
  rewrite inspections_reference_cars_iff. intros H Hi.
  destruct (H i Hi) as [c [Hc He]]. apply Z.eqb_neq.
  assert (c_id c < next_id (map c_id (cars db)))
    by (apply next_id_above, in_map, Hc).
  lia.
Qed.

Lemma filter_all_false {A} (p : A -> bool) (l : list A) :
  (forall x, In x l -> p x = false) -> filter p l = [].
Proof.
  induction l as [| a l IH]; simpl; intros H; [reflexivity |].
  rewrite (H a (or_introl eq_refl)). apply IH. intros x Hx. apply H. auto.
Qed.

(** X19: in a store where every inspection references a stored car,
    creating a car raises the creator's [cars_assigned] by one and leaves
    [inspections_total] and [failed_cars] as they were: the new car
    starts without inspections. *)
Theorem create_car_moves_profile
    (db : DB) (u : User) (body : CarCreate) :
  inspections_reference_cars db = true ->
  exists car db' r r',
    create_car body u db = (db', inr car)
    /\ me u db = (db, inr r)
    /\ me u db' = (db', inr r')
    /\ cars_assigned r' = cars_assigned r + 1
    /\ inspections_total r' = inspections_total r
    /\ failed_cars r' = failed_cars r
    /\ inspections_of db' car = [].
Proof.
  intros Hinv.
  set (new := mkCar (next_id (map c_id (cars db))) (u_id u) (cc_make body)
                    (cc_model body) (cc_year body) (cc_plate body)).
  destruct (me_returns db u) as [r [Hr [Ha [Hf Ht]]]].
  destruct (me_returns (insert_car new db) u) as [r' [Hr' [Ha' [Hf' Ht']]]].
  exists new, (insert_car new db), r, r'.
  split; [reflexivity | split; [exact Hr | split; [exact Hr' |]]].
  assert (Hown : filter (owned_by u) (cars (insert_car new db))
                 = (filter (owned_by u) (cars db) ++ [new])%list).
  { simpl. rewrite filter_app. simpl. unfold owned_by at 2. simpl.
    rewrite Z.eqb_refl. reflexivity. }
  assert (Hnone : inspections_of db new = []).
  { unfold inspections_of. apply filter_all_false. intros i Hi.
    apply no_inspection_of_next_car; assumption. }
  rewrite Hown in Ha', Hf', Ht'.
  split; [rewrite Ha', Ha; apply len_app_one |].
  split; [| split; [| exact Hnone]].
  - rewrite Ht', Ht.
    assert (Hext : forall i, In i (inspections db) ->
               existsb (Z.eqb (i_car_id i))
                 (map c_id (filter (owned_by u) (cars db) ++ [new])%list)
               = existsb (Z.eqb (i_car_id i))
                   (map c_id (filter (owned_by u) (cars db)))).
    { intros i Hi. rewrite map_app, existsb_app. simpl.
      rewrite (no_inspection_of_next_car db i Hinv Hi), !orb_false_r.
      reflexivity. }
    simpl inspections.
    destruct (filter (owned_by u) (cars db)) as [| c cs] eqn:E.
    + simpl app. cbv iota.
      rewrite (filter_all_false _ (inspections db)); [reflexivity |].
      intros i Hi. exact (Hext i Hi).
    + simpl app. cbv iota. f_equal. apply filter_ext_in.
      intros i Hi. exact (Hext i Hi).
  - rewrite Hf', Hf, fold_left_app. simpl.
    fold (failed_cars_step (insert_car new db)).
    unfold failed_cars_step at 1.
    rewrite last_inspection_most_recent.
    change (inspections_of (insert_car new db) new)
      with (inspections_of db new).
    rewrite Hnone. reflexivity.
Qed.

Lemma create_car_moves_profile_witness :
  exists car db' r r',
    create_car (mkCarCreate "Seat" "Ibiza" 2019 "PO 5") alice demo_db
    = (db', inr car)
    /\ me alice demo_db = (demo_db, inr r)
    /\ me alice db' = (db', inr r')
    /\ cars_assigned r' = cars_assigned r + 1.
Proof.
  destruct (create_car_moves_profile demo_db alice
              (mkCarCreate "Seat" "Ibiza" 2019 "PO 5") eq_refl)
    as [car [db' [r [r' [H1 [H2 [H3 [H4 _]]]]]]]].
  exists car, db', r, r'. auto.
Defined.

(** An inspection left without its car is adopted by the next car
    created: without the reference invariant a new car can start
    failing. *)
Example new_car_adopts_stray_inspection :
  option_map failed_cars
    (match snd (me alice
                  (fst (create_car (mkCarCreate "a" "b" 1 "c") alice
                          (mkDB [alice] []
                                [mkInspection 1 1 10 bad good good good None]))))
     with
     | inr r => Some r
     | inl _ => None
     end)
  = Some 1.
Proof. reflexivity. Qed.

(** X20: a successful inspection creation leaves the car owner's
    [cars_assigned] as it was and raises the owner's [inspections_total]
    by one; and when the new inspection is dated after every inspection
    the car already had, the car is failing afterwards exactly when the
    new inspection has a bad reading. *)
Theorem create_inspection_moves_profile
    (db db' : DB) (u v : User) (k : Z) (body : InspectionCreate)
    (insp : Inspection) (c : Car) :
  create_inspection k body v db = (db', inr insp) ->
  get_Car db k = Some c ->
  c_user_id c = u_id u ->
  exists r r',
    me u db = (db, inr r)
    /\ me u db' = (db', inr r')
    /\ cars_assigned r' = cars_assigned r
    /\ inspections_total r' = inspections_total r + 1
    /\ ((forall j, In j (inspections db) -> i_car_id j = k ->
                   i_date j < ic_date body) ->
        failing_spec db' c = any_bad insp).
Proof.
  intros Hcreate Hc Hu. revert db' insp Hcreate. on_success v db.
  injection Hc as ->. intros db' insp H. injection H as <- <-.
  destruct (get_Car_some db k c Hg) as [Hcin Hcid].
  set (new := mkInspection (next_id (map i_id (inspections db))) k
                (ic_date body) (ic_frontLeft body) (ic_frontRight body)
                (ic_rearLeft body) (ic_rearRight body) (ic_notes body)).
  destruct (me_returns db u) as [r [Hr [Ha1 [_ Ht]]]].
  destruct (me_returns (insert_inspection new db) u)
    as [r' [Hr' [Ha1' [_ Ht']]]].
  exists r, r'. split; [exact Hr | split; [exact Hr' |]].
  split; [rewrite Ha1', Ha1; reflexivity |].
  assert (Hown : In c (filter (owned_by u) (cars db))).
  { apply filter_In. split; [exact Hcin |].
    unfold owned_by. apply Z.eqb_eq. exact Hu. }
  split.
  - rewrite Ht', Ht. simpl cars. simpl inspections.
    destruct (filter (owned_by u) (cars db)) as [| c1 cs] eqn:E;
      [destruct Hown |].
    rewrite filter_app.
    assert (Hp : existsb (Z.eqb (i_car_id new)) (map c_id (c1 :: cs)) = true).
    { apply existsb_exists. exists (c_id c). split.
      - apply in_map. exact Hown.
      - apply Z.eqb_eq. simpl. symmetry. exact Hcid. }
    assert (Hone : filter (fun i => existsb (Z.eqb (i_car_id i))
                                           (map c_id (c1 :: cs))) [new]
                   = [new])
      by (cbn [filter]; rewrite Hp; reflexivity).
    rewrite Hone. apply len_app_one.
  - intros Hlater. unfold failing_spec.
    rewrite (most_recent_spec_strict _ new); [reflexivity | |].
    + apply in_inspections_of. simpl. split.
      * apply in_or_app. right. left. reflexivity.
      * symmetry. exact Hcid.
    + intros j Hj. apply in_inspections_of in Hj. simpl in Hj.
      destruct Hj as [Hj Hjc]. apply in_app_iff in Hj.
      destruct Hj as [Hj | [<- | []]]; [left | right; reflexivity].
      apply Hlater; [exact Hj | congruence].
Qed.

Lemma create_inspection_moves_profile_witness :
  failing_spec
    (insert_inspection (mkInspection 3 1 300 bad good good good None) demo_db)
    (mkCar 1 1 "Fiat" "Panda" 2012 "KR 1")
  = true.
Proof.
  destruct (create_inspection_moves_profile demo_db
              (insert_inspection
                 (mkInspection 3 1 300 bad good good good None) demo_db)
              alice root 1 (bad_front_left_at 300)
              (mkInspection 3 1 300 bad good good good None)
              (mkCar 1 1 "Fiat" "Panda" 2012 "KR 1")
              eq_refl eq_refl eq_refl)
    as [r [r' [_ [_ [_ [_ Hfail]]]]]].
  rewrite Hfail; [reflexivity |].
  simpl. intros j [<- | [<- | []]] _; simpl; lia.
Defined.

(** ** Reading one car and listing cars agree *)

Lemma get_Car_of_stored (db : DB) (c : Car) :
  NoDup (map c_id (cars db)) -> In c (cars db) ->
  get_Car db (c_id c) = Some c.
Proof.
  intros Hnd Hin.
  destruct (get_Car_exists db (c_id c)) as [c' Hc'].
  - apply existsb_exists. exists c. rewrite Z.eqb_refl. auto.
  - rewrite Hc'. f_equal. destruct (get_Car_some db _ c' Hc') as [Hin' Hid].
    apply (NoDup_key_inj c_id (cars db)); assumption.
Qed.

(** X21: with unique car keys, the cars a caller can read one by one are
    exactly the cars of the caller's listing: reading key [k] returns
    car [c] if and only if [c] is in the listing and has key [k]. *)
Theorem get_car_iff_listed
    (db : DB) (u : User) (k : Z) (l : list Car) (c : Car) :
  distinct (map c_id (cars db)) = true ->
  list_cars u db = (db, inr l) ->
  (get_car k u db = (db, inr c) <-> In c l /\ c_id c = k).
Proof.
  rewrite distinct_NoDup. intros Hnd Hl.
  assert (Hin : In c l <-> In c (cars db)
                           /\ (u_role u = admin \/ u_id u = c_user_id c)).
  { unfold list_cars, query in Hl. destruct (u_role u) eqn:Er; simpl in Hl;
      injection Hl as <-.
    - rewrite filter_In, Z.eqb_eq. split; intros [H1 H2]; split; auto.
      destruct H2 as [H2 | H2]; [discriminate | auto].
    - tauto. }
  rewrite Hin. split.
  - open_handler. destruct (get_Car db k) as [c' |] eqn:Hg; simpl;
      [| discriminate].
    destruct (allowed_dec u (c_user_id c')) as [Ha | [Hr Ho]].
    + rewrite (check_owner_allowed u c' db Ha). simpl.
      intros H. injection H as <-.
      destruct (get_Car_some db k c' Hg). auto.
    + rewrite (check_owner_denied u c' db Hr Ho). simpl. discriminate.
  - intros [[Hc Ha] <-]. open_handler.
    rewrite (get_Car_of_stored db c Hnd Hc). simpl.
    rewrite (check_owner_allowed u c db Ha). reflexivity.
Qed.

Lemma get_car_iff_listed_witness :
  get_car 1 alice demo_db = (demo_db, inr (mkCar 1 1 "Fiat" "Panda" 2012 "KR 1"))
  <-> In (mkCar 1 1 "Fiat" "Panda" 2012 "KR 1")
         [mkCar 1 1 "Fiat" "Panda" 2012 "KR 1"]
      /\ c_id (mkCar 1 1 "Fiat" "Panda" 2012 "KR 1") = 1.
Proof.
  apply (get_car_iff_listed demo_db alice 1
           [mkCar 1 1 "Fiat" "Panda" 2012 "KR 1"]
           (mkCar 1 1 "Fiat" "Panda" 2012 "KR 1") eq_refl eq_refl).
Defined.

(** ** The reference invariant on a concrete store *)

Lemma handle_keeps_references_witness :
  inspections_reference_cars demo_db = true
  /\ inspections_reference_cars (fst (handle root (DELETE_car 1) demo_db))
     = true.
Proof.
  split; [reflexivity |].
  apply (handle_keeps_references root (DELETE_car 1) demo_db eq_refl).
Defined.

(** * The routes with parameter binding *)

(** ** Absent, forbidden and out of range *)




(** ** Every way a route can fail *)



(** Within the range nothing but the three [HTTPException]s is left. *)
Lemma serve_in_range_agrees (db : DB) (u : User) (req : Request) :
  request_binds req = true ->
  serve u req db
  = match handle u req db with
    | (db', inr r) => (db', Returned r)
    | (db', inl e) => (db', Raised e)
    end.
Proof.
  unfold request_binds, serve. intros H.
  apply andb_true_iff in H. destruct H as [-> ->]. reflexivity.
Qed.

(** ** Creating a vehicle, from request to stored row *)


